(** * BasicCompoundingCalculator: the annuity helpers of [app.py]

    A shallow embedding of the three helpers of [app.py]
    ([fv_annuity_ordinary], [fv_annuity], [fmt_rp]) and of the script body
    that converts the rate and builds the yearly and monthly tables.

    Numbers.  Python [int] is [Z].  The development has two embeddings of
    the annuity helpers.

    - Modules [App] and [Spec] take a finite Python [float] for the rational
      it denotes, with [+], [-], [*], [/] and [**] exact on [Q].  This is
      the formula the code evaluates, without binary64 rounding and without
      overflow; what is proved on it is either structural (which expression
      is returned, which call a table entry comes from) or stated inside
      the limits of the page's widgets, where rounding is far below the
      quantities compared.  Equalities between numbers are stated with
      [Qeq] ([==]).
    - Module [B64] evaluates the same helpers in binary64, with the
      primitive floats of the kernel.  It is used on concrete inputs, to
      show where rounding or overflow separates the code from the formula.

    The values handed to [fmt_rp] are integers or floats; a float is a
    finite rational or one of [nan], [inf], [-inf], and [float] rounds an
    integer or a decimal text to the nearest binary64 value.

    Exceptions.  A Python call either returns a value or raises; this is
    the type [result], with the exception classes the helpers can meet. *)

From Stdlib Require Import ZArith QArith Qround Qpower List String Ascii Bool.
From Stdlib Require Import DecimalString Lia Lqa.
From Stdlib Require DecimalPos DecimalZ.
From Stdlib Require PrimFloat SpecFloat FloatOps.
Import ListNotations.

(** ** The fragment of the Python runtime used by [app.py] *)

Module Py.

Local Open Scope Q_scope.

Inductive exn : Type :=
| ZeroDivisionError
| ValueError
| TypeError
| OverflowError.

Inductive result (A : Type) : Type :=
| Ok (a : A)
| Raise (e : exn).

Arguments Ok {A} a.
Arguments Raise {A} e.

Definition bind {A B} (c : result A) (k : A -> result B) : result B :=
  match c with
  | Ok a => k a
  | Raise e => Raise e
  end.

Notation "x <- c ;; k" := (bind c (fun x => k))
  (at level 61, c at next level, right associativity).

(** [returns c v]: the call [c] returns normally, with a number equal to
    [v]. *)
Definition returns (c : result Q) (v : Q) : Prop :=
  match c with
  | Ok w => w == v
  | Raise _ => False
  end.

(** [b ** n] for an integer exponent, on exact numbers: a zero base with a
    negative exponent raises, every other case is the exact power.  The
    overflow of a binary64 power is in [B64.pow]. *)
Definition pow (b : Q) (n : Z) : result Q :=
  if Qeq_bool b 0 && (n <? 0)%Z then Raise ZeroDivisionError
  else Ok (b ^ n).

(** [a / b]: true division, raising on a zero divisor. *)
Definition div (a b : Q) : result Q :=
  if Qeq_bool b 0 then Raise ZeroDivisionError else Ok (a / b).

(** [range(lo, hi)] as the list it iterates over. *)
Definition range (lo hi : Z) : list Z :=
  map (fun k => (lo + Z.of_nat k)%Z) (seq 0 (Z.to_nat (hi - lo))).

(** A [for] loop whose body updates a state and may raise. *)
Fixpoint for_each {A S} (xs : list A) (body : A -> S -> result S) (s : S)
  : result S :=
  match xs with
  | [] => Ok s
  | x :: xs' => s' <- body x s ;; for_each xs' body s'
  end.

(** A list comprehension [[f x for x in xs]]. *)
Fixpoint comprehension {A B} (f : A -> result B) (xs : list A)
  : result (list B) :=
  match xs with
  | [] => Ok []
  | x :: xs' => y <- f x ;; ys <- comprehension f xs' ;; Ok (y :: ys)
  end.

(** *** Values handed to [fmt_rp] *)

(** A Python [float]: a finite value, or one of the three special ones. *)
Inductive pyfloat : Type :=
| Fin (q : Q)
| PosInf
| NegInf
| NaN.

(** The objects of type [Any] that the model covers.  Text is ASCII. *)
Inductive value : Type :=
| VNone
| VBool (b : bool)
| VInt (z : Z)
| VFloat (f : pyfloat)
| VStr (s : string).

(** **** Rounding to binary64 *)

(** The binary64 value nearest to the rational [q], a tie going to the
    even mantissa; past the largest finite value it is an infinity. *)
Definition nearest_binary64 (q : Q) : SpecFloat.spec_float :=
  let den := SpecFloat.S754_finite false (Qden q) 0 in
  match Qnum q with
  | Z0 => SpecFloat.S754_zero false
  | Zpos p =>
      SpecFloat.SFdiv FloatOps.prec FloatOps.emax
        (SpecFloat.S754_finite false p 0) den
  | Zneg p =>
      SpecFloat.SFdiv FloatOps.prec FloatOps.emax
        (SpecFloat.S754_finite true p 0) den
  end.

(** The float that a binary64 value is; the sign of a zero is dropped. *)
Definition of_binary64 (f : SpecFloat.spec_float) : pyfloat :=
  match f with
  | SpecFloat.S754_zero _ => Fin 0
  | SpecFloat.S754_infinity s => if s then NegInf else PosInf
  | SpecFloat.S754_nan => NaN
  | SpecFloat.S754_finite s m e =>
      Fin (inject_Z (if s then Zneg m else Zpos m) * 2 ^ e)
  end.

(** **** [float(str)]: the grammar of the language reference *)

Definition is_space (c : ascii) : bool :=
  let n := nat_of_ascii c in
  ((9 <=? n) && (n <=? 13) || (n =? 32))%nat.

Definition digit_of (c : ascii) : option Z :=
  let n := nat_of_ascii c in
  if ((48 <=? n) && (n <=? 57))%nat then Some (Z.of_nat (n - 48)) else None.

Definition lower (c : ascii) : ascii :=
  let n := nat_of_ascii c in
  if ((65 <=? n) && (n <=? 90))%nat then ascii_of_nat (n + 32) else c.

Fixpoint lstrip (cs : list ascii) : list ascii :=
  match cs with
  | c :: cs' => if is_space c then lstrip cs' else cs
  | [] => []
  end.

Definition strip (cs : list ascii) : list ascii :=
  rev (lstrip (rev (lstrip cs))).

(** The rest of a [digitpart] once its first digit is read:
    [(["_"] digit)*]. *)
Fixpoint digits_tail (cs : list ascii) : list Z * list ascii :=
  match cs with
  | [] => ([], [])
  | c :: cs' =>
      match digit_of c with
      | Some d => let '(ds, rest) := digits_tail cs' in (d :: ds, rest)
      | None =>
          if Ascii.eqb c "_" then
            match cs' with
            | c2 :: cs'' =>
                match digit_of c2 with
                | Some d =>
                    let '(ds, rest) := digits_tail cs'' in (d :: ds, rest)
                | None => ([], cs)
                end
            | [] => ([], cs)
            end
          else ([], cs)
      end
  end.

Definition digitpart (cs : list ascii) : option (list Z * list ascii) :=
  match cs with
  | c :: cs' =>
      match digit_of c with
      | Some d => let '(ds, rest) := digits_tail cs' in Some (d :: ds, rest)
      | None => None
      end
  | [] => None
  end.

(** [number ::= [digitpart] "." digitpart | digitpart ["."]]: the digits
    before the point, the digits after it, and what follows. *)
Definition number (cs : list ascii)
  : option (list Z * list Z * list ascii) :=
  match digitpart cs with
  | Some (ip, rest) =>
      match rest with
      | "."%char :: rest' =>
          match digitpart rest' with
          | Some (fp, rest'') => Some (ip, fp, rest'')
          | None => Some (ip, [], rest')
          end
      | _ => Some (ip, [], rest)
      end
  | None =>
      match cs with
      | "."%char :: rest =>
          match digitpart rest with
          | Some (fp, rest') => Some ([], fp, rest')
          | None => None
          end
      | _ => None
      end
  end.

(** An optional ["+"] or ["-"]: [true] for a minus sign. *)
Definition sign (cs : list ascii) : bool * list ascii :=
  match cs with
  | "-"%char :: cs' => (true, cs')
  | "+"%char :: cs' => (false, cs')
  | _ => (false, cs)
  end.

Definition digits_value (ds : list Z) : Z :=
  fold_left (fun acc d => (10 * acc + d)%Z) ds 0%Z.

(** [exponent ::= ("e" | "E") [sign] digitpart], absent or to the end of
    the text. *)
Definition exponent (cs : list ascii) : option Z :=
  match cs with
  | [] => Some 0%Z
  | c :: cs' =>
      if Ascii.eqb (lower c) "e" then
        let '(neg, cs'') := sign cs' in
        match digitpart cs'' with
        | Some (ds, []) =>
            Some (if neg then (- digits_value ds)%Z else digits_value ds)
        | _ => None
        end
      else None
  end.

Definition floatnumber (cs : list ascii) : option Q :=
  match number cs with
  | Some (ip, fp, rest) =>
      match exponent rest with
      | Some e =>
          Some (inject_Z (digits_value (ip ++ fp))
                * 10 ^ (e - Z.of_nat (List.length fp)))
      | None => None
      end
  | None => None
  end.

Definition parse_float (s : string) : option pyfloat :=
  let '(neg, cs) := sign (strip (list_ascii_of_string s)) in
  let word := string_of_list_ascii (map lower cs) in
  if (word =? "inf")%string || (word =? "infinity")%string then
    Some (if neg then NegInf else PosInf)
  else if (word =? "nan")%string then Some NaN
  else
    match floatnumber cs with
    | Some q => Some (of_binary64 (nearest_binary64 (if neg then - q else q)))
    | None => None
    end.

(** [float(x)].  An integer of magnitude up to 2^53 is a float as it
    stands; a larger one is rounded, and raises when it rounds to an
    infinity. *)
Definition float (x : value) : result pyfloat :=
  match x with
  | VNone => Raise TypeError
  | VBool b => Ok (Fin (if b then 1 else 0))
  | VInt z =>
      if (Z.abs z <=? 2 ^ 53)%Z then Ok (Fin (inject_Z z))
      else
        match of_binary64 (nearest_binary64 (inject_Z z)) with
        | PosInf | NegInf => Raise OverflowError
        | f => Ok f
        end
  | VFloat f => Ok f
  | VStr s =>
      match parse_float s with
      | Some f => Ok f
      | None => Raise ValueError
      end
  end.

(** **** [round], [int], [str] and the format specification [",.0f"] *)

(** Round to the nearest integer, a tie going to the even neighbour. *)
Definition round_half_even (q : Q) : Z :=
  let f := Qfloor q in
  match ((q - inject_Z f) ?= (1 # 2))%Q with
  | Lt => f
  | Gt => (f + 1)%Z
  | Eq => if Z.even f then f else (f + 1)%Z
  end.

(** [round(val)] with one argument: an [int], or an exception for the
    special floats. *)
Definition round (f : pyfloat) : result Z :=
  match f with
  | Fin q => Ok (round_half_even q)
  | NaN => Raise ValueError
  | PosInf | NegInf => Raise OverflowError
  end.

(** [int(n)] for an [int] argument. *)
Definition int (n : Z) : Z := n.

Definition digits (n : Z) : list ascii :=
  list_ascii_of_string (NilZero.string_of_uint (N.to_uint (Z.to_N n))).

(** Thousands separators, on the digits in reverse order. *)
Fixpoint commas_rev (ds : list ascii) : list ascii :=
  match ds with
  | a :: b :: c :: rest =>
      match rest with
      | [] => ds
      | _ :: _ => a :: b :: c :: ","%char :: commas_rev rest
      end
  | _ => ds
  end.

(** [format(n, ",.0f")] for an [int] [n]. *)
Definition format_comma_0f (n : Z) : string :=
  let body := string_of_list_ascii (rev (commas_rev (rev (digits (Z.abs n))))) in
  if (n <? 0)%Z then ("-" ++ body)%string else body.

(** [s.replace(old, new)] for one-character [old] and [new]. *)
Fixpoint replace (old new : ascii) (s : string) : string :=
  match s with
  | EmptyString => EmptyString
  | String c s' =>
      String (if Ascii.eqb c old then new else c) (replace old new s')
  end.

Section Str.

(** The text of a float, [repr(f)], is the shortest decimal that reads
    back as the same binary64 value; it is left as a parameter. *)
Variable float_repr : pyfloat -> string.

(** [str(x)]. *)
Definition str (x : value) : string :=
  match x with
  | VNone => "None"
  | VBool true => "True"
  | VBool false => "False"
  | VInt z => NilZero.string_of_int (Z.to_int z)
  | VFloat f => float_repr f
  | VStr s => s
  end.

End Str.

End Py.

(** ** The helpers of [app.py] *)

Module App.
Import Py.

Local Open Scope Q_scope.

(** [fv_annuity_ordinary(P, r, n)], lines 9-18, as the formula on exact
    numbers; [B64.fv_annuity_ordinary] is the same function in binary64. *)
Definition fv_annuity_ordinary (P r : Q) (n : Z) : result Q :=
  if Qeq_bool r 0 then Ok (P * inject_Z n)
  else
    pw <- pow (1 + r) n ;;
    div (P * (pw - 1)) r.

(** [fv_annuity(P, r, n, due)], lines 20-27, on exact numbers. *)
Definition fv_annuity (P r : Q) (n : Z) (due : bool) : result Q :=
  base <- fv_annuity_ordinary P r n ;;
  Ok (if due then base * (1 + r) else base).

Section Formatting.

Variable float_repr : pyfloat -> string.

(** [fmt_rp(x)], lines 29-34.  Only [float(x)] is inside the [try]; the
    handler catches [ValueError] and [TypeError]. *)
Definition fmt_rp (x : value) : result string :=
  match float x with
  | Raise ValueError | Raise TypeError => Ok (str float_repr x)
  | Raise e => Raise e
  | Ok val =>
      n <- round val ;;
      Ok (replace "," "." ("Rp" ++ format_comma_0f (int n))%string)
  end.

End Formatting.

(** ** The script body, lines 44-119 *)

(** What the widgets return on one run.  [durasi] is the number typed in
    the duration field that [durasi_unit] selects. *)
Record widgets : Type := {
  w_P : Z;
  w_durasi_unit : string;
  w_durasi : Z;
  w_period_choice : string;
  w_r_percent : Q;
  w_timing : string
}.

(** Lines 48-54. *)
Definition years_months (w : widgets) : Z * Z :=
  if (w_durasi_unit w =? "Tahun")%string then
    let years := w_durasi w in
    (years, int (years * 12)%Z)
  else
    let months := w_durasi w in
    ((months / 12)%Z, months).

Definition years (w : widgets) : Z := fst (years_months w).
Definition months (w : widgets) : Z := snd (years_months w).

(** Line 62. *)
Definition is_due (w : widgets) : bool :=
  (w_timing w =? "Awal Bulan (Annuity Due)")%string.

(** Lines 64-68. *)
Definition r_month (period_choice : string) (r_percent : Q) : Q :=
  if (period_choice =? "Per Bulan")%string then r_percent / 100
  else (r_percent / 100) / 12.

(** One dictionary appended to [records], line 94. *)
Record yearly_row : Type := {
  Tahun : Z;
  Setoran_Kumulatif : Z;
  Future_Value : Q;
  Bunga_Return : Q
}.

(** The body of the loop of lines 88-95. *)
Definition records_body (P : Z) (r : Q) (due : bool)
    (y : Z) (records : list yearly_row) : result (list yearly_row) :=
  let m := (y * 12)%Z in
  fv_y <- fv_annuity (inject_Z P) r m due ;;
  let principal_y := (P * m)%Z in
  let interest_y := fv_y - inject_Z principal_y in
  Ok (records ++ [ {| Tahun := y; Setoran_Kumulatif := principal_y;
                      Future_Value := fv_y; Bunga_Return := interest_y |} ]).

(** Lines 86-96: the yearly table, built only when [years >= 1]. *)
Definition records (P : Z) (r : Q) (due : bool) (years : Z)
  : result (option (list yearly_row)) :=
  if (1 <=? years)%Z then
    recs <- for_each (range 1 (years + 1)) (records_body P r due) [] ;;
    Ok (Some recs)
  else Ok None.

(** Line 106. *)
Definition progress (P : Z) (r : Q) (due : bool) (months : Z)
  : result (list Q) :=
  comprehension (fun m => fv_annuity (inject_Z P) r m due)
                (range 1 (int months + 1)).

(** One line of [df_progress_tbl], lines 107-115.  The products are
    those of unbounded integers: for a deposit that the integer field
    accepts they stay within the 64-bit integers of the table. *)
Record monthly_row : Type := {
  Bulan : Z;
  m_Future_Value : Q;
  m_Setoran_Kumulatif : Z;
  m_Bunga_Return : Q
}.

Definition df_progress_tbl (P : Z) (months : Z) (progress : list Q)
  : list monthly_row :=
  map (fun '(b, fv) =>
         {| Bulan := b; m_Future_Value := fv;
            m_Setoran_Kumulatif := (b * P)%Z;
            m_Bunga_Return := fv - inject_Z (b * P) |})
      (combine (range 1 (int months + 1)) progress).

(** Everything one run computes before rendering. *)
Record page : Type := {
  FV : Q;
  principal : Z;
  interest : Q;
  df_yearly : option (list yearly_row);
  df_progress : list Q;
  df_monthly : list monthly_row
}.

Definition run (w : widgets) : result page :=
  let P := w_P w in
  let r := r_month (w_period_choice w) (w_r_percent w) in
  let due := is_due w in
  fv <- fv_annuity (inject_Z P) r (int (months w)) due ;;
  let principal := (P * int (months w))%Z in
  let interest := fv - inject_Z principal in
  yearly <- records P r due (years w) ;;
  prog <- progress P r due (months w) ;;
  Ok {| FV := fv; principal := principal; interest := interest;
        df_yearly := yearly; df_progress := prog;
        df_monthly := df_progress_tbl P (months w) prog |}.

End App.

(** ** The helpers in binary64 *)

Module B64.
Import Py.
Import PrimFloat SpecFloat FloatOps.

Local Open Scope float_scope.

(** The float written as the decimal [num / den]. *)
Definition decimal (num : Z) (den : positive) : float :=
  SF2Prim (nearest_binary64 (num # den)).

(** An [int] operand of a float operation: rounded to the nearest float,
    or [OverflowError] when that is an infinity. *)
Definition of_int (n : Z) : result float :=
  let f := SF2Prim (binary_normalize prec emax n 0 false) in
  if is_infinity f then Raise OverflowError else Ok f.

(** The integer that a float of integral value stands for. *)
Definition to_Z (f : float) : Z :=
  match Prim2SF f with
  | S754_finite s m e =>
      let v := Z.shiftl (Zpos m) e in if s then (- v)%Z else v
  | _ => 0%Z
  end.

(** [pow(a, n)] of the C library, for a finite [a > 0] and an integral
    [n <> 0]: taken as the exact power rounded to the nearest float, which
    is what the library returns whenever the exact power is a float (for
    [n = 1] in particular) and within the last bit of it otherwise. *)
Definition libm_pow (a : float) (n : Z) : float :=
  match Prim2SF a with
  | S754_finite _ m e =>
      let k := Z.to_pos (Z.abs n) in
      if (0 <? n)%Z then
        SF2Prim (binary_round prec emax false (Pos.pow m k) (e * Zpos k))
      else
        SF2Prim (SFdiv prec emax (S754_finite false 1 0)
                   (S754_finite false (Pos.pow m k) (e * Zpos k)))
  | _ => a
  end.

(** [iv ** n] for a float [iv] and an [int] [n], after [float_pow] of the
    interpreter: the special cases it sorts out itself, then the C
    library, an infinite result of which raises [OverflowError]. *)
Definition pow (iv : float) (n : Z) : result float :=
  iw <- of_int n ;;
  let n := to_Z iw in
  if (n =? 0)%Z then Ok one
  else if is_nan iv then Ok iv
  else if is_infinity iv then
    Ok (if (0 <? n)%Z then (if Z.odd n then iv else abs iv)
        else if Z.odd n then (if iv <? zero then neg_zero else zero)
        else zero)
  else if iv =? zero then
    if (n <? 0)%Z then Raise ZeroDivisionError
    else Ok (if Z.odd n then iv else zero)
  else
    let negate := (iv <? zero) && Z.odd n in
    let a := abs iv in
    if a =? one then Ok (if negate then - one else one)
    else
      let ix := libm_pow a n in
      if is_infinity ix then Raise OverflowError
      else Ok (if negate then - ix else ix).

(** [fv_annuity_ordinary(P, r, n)], lines 9-18. *)
Definition fv_annuity_ordinary (P r : float) (n : Z) : result float :=
  if r =? zero then
    fn <- of_int n ;;
    Ok (P * fn)
  else
    pw <- pow (one + r) n ;;
    Ok (P * (pw - one) / r).

(** [fv_annuity(P, r, n, due)], lines 20-27. *)
Definition fv_annuity (P r : float) (n : Z) (due : bool) : result float :=
  base <- fv_annuity_ordinary P r n ;;
  Ok (if due then base * (one + r) else base).

(** Lines 64-68. *)
Definition r_month (period_choice : string) (r_percent : float) : float :=
  if (period_choice =? "Per Bulan")%string then r_percent / 100
  else (r_percent / 100) / 12.


End B64.

(** ** Reference definitions, following the glossary of the specification *)

Module Spec.
Import Py App.

Local Open Scope Q_scope.

(** Ordinary annuity, period by period: the balance earns one period of
    interest and the deposit is posted at the end of the period. *)
Fixpoint ordinary_balance (P r : Q) (n : nat) : Q :=
  match n with
  | O => 0
  | S k => ordinary_balance P r k * (1 + r) + P
  end.

(** "Strictly increasing in n", at one step: the value after [n + 1]
    periods exceeds the value after [n] periods. *)
Definition fv_increases_at (P r : Q) (n : Z) (due : bool) : Prop :=
  exists a b,
    fv_annuity P r n due = Ok a /\ fv_annuity P r (n + 1) due = Ok b /\
    a < b.


(** The entries of the per-year progression: the rows of the yearly
    table, and none when the table is not built. *)
Definition yearly_entries (t : option (list yearly_row)) : list yearly_row :=
  match t with
  | Some rows => rows
  | None => []
  end.

(** What a row of the yearly table holds for year [y]. *)
Definition is_yearly_row (P : Z) (r : Q) (due : bool)
    (y : Z) (row : yearly_row) : Prop :=
  Tahun row = y /\
  Setoran_Kumulatif row = (P * (y * 12))%Z /\
  fv_annuity (inject_Z P) r (y * 12) due = Ok (Future_Value row) /\
  Bunga_Return row = Future_Value row - inject_Z (P * (y * 12)).

End Spec.

(** ** Sample runs *)

Module Sample.
Import App.

Local Open Scope string_scope.

(** The default state of the page: Rp400.000 a month for 8 years at 5% a
    year, deposits at the end of the month. *)
Definition defaults : widgets :=
  {| w_P := 400000; w_durasi_unit := "Tahun"; w_durasi := 8;
     w_period_choice := "Per Tahun"; w_r_percent := 5;
     w_timing := "Akhir Bulan (Ordinary)" |}.

(** 30 months at 1% a month, deposits at the start of the month. *)
Definition thirty_months : widgets :=
  {| w_P := 100000; w_durasi_unit := "Bulan"; w_durasi := 30;
     w_period_choice := "Per Bulan"; w_r_percent := 1;
     w_timing := "Awal Bulan (Annuity Due)" |}.

End Sample.

(** ** Vocabulary for the further properties *)

Module Page.
Import Py App.

Local Open Scope Q_scope.

(** The value of the variable [r_month] on a run, lines 64-68. *)
Definition rate (w : widgets) : Q :=
  r_month (w_period_choice w) (w_r_percent w).

(** The limits the widgets of lines 46-58 put on what they return. *)
Definition within_limits (w : widgets) : Prop :=
  (0 <= w_P w)%Z /\
  (if (w_durasi_unit w =? "Tahun")%string
   then (1 <= w_durasi w <= 50)%Z
   else (1 <= w_durasi w <= 600)%Z) /\
  0 <= w_r_percent w <= 50.

(** The values above zero that the slider of line 58 can take: the
    multiples of 0.1 up to 50. *)
Definition on_slider (p : Q) : Prop :=
  exists k : Z, (1 <= k <= 500)%Z /\ p == inject_Z k / 10.

End Page.

Module Text.
Import Py.

(** [s] with every occurrence of the character [c] taken out. *)
Fixpoint without (c : ascii) (s : string) : string :=
  match s with
  | EmptyString => EmptyString
  | String a s' =>
      if Ascii.eqb a c then without c s' else String a (without c s')
  end.

(** The characters of [s], last one first. *)
Definition from_right (s : string) : list ascii :=
  rev (list_ascii_of_string s).

(** The character that [replace(",", ".")] writes for [c]. *)
Definition dot_for_comma (c : ascii) : ascii :=
  if Ascii.eqb c "," then "."%char else c.

Definition is_digit (c : ascii) : bool :=
  let n := nat_of_ascii c in ((48 <=? n) && (n <=? 57))%nat.

(** [x] is a number that [float] takes to the finite value [q] without
    rounding: a finite float, or an integer of magnitude at most 2^53. *)
Definition amount (x : value) (q : Q) : Prop :=
  x = VFloat (Fin q) \/
  exists z, x = VInt z /\ (Z.abs z <= 2 ^ 53)%Z /\ q = inject_Z z.

(** The integer [z] is the rounding of [q] to the nearest integer, a tie
    going to the even neighbour. *)
Definition nearest_even (q : Q) (z : Z) : Prop :=
  (inject_Z z - (1 # 2) < q /\ q < inject_Z z + (1 # 2))%Q \/
  ((q == inject_Z z - (1 # 2) \/ q == inject_Z z + (1 # 2))%Q /\
   Z.even z = true).

End Text.

(** * Facts about the runtime fragment *)

Module PyFacts.
Import Py.

Local Open Scope Q_scope.

Lemma pow_nonneg_exponent (b : Q) (n : Z) :
  (0 <= n)%Z -> pow b n = Ok (b ^ n).
Proof.
  intros Hn. unfold pow.
  replace (n <? 0)%Z with false by (symmetry; apply Z.ltb_ge; exact Hn).
  now rewrite andb_false_r.
Qed.

Lemma div_nonzero (a b : Q) : ~ b == 0 -> div a b = Ok (a / b).
Proof.
  intros Hb. unfold div.
  destruct (Qeq_bool b 0) eqn:E; [| reflexivity].
  apply Qeq_bool_eq in E. contradiction.
Qed.

Lemma returns_Ok (v w : Q) : returns (Ok v) w <-> v == w.
Proof. reflexivity. Qed.

Lemma Qpower_succ (b : Q) (n : Z) :
  (0 <= n)%Z -> b ^ (n + 1) == b ^ n * b.
Proof.
  intros Hn. rewrite Qpower_plus' by lia. now rewrite Qpower_1_r.
Qed.

Lemma Qpower_of_nat_succ (b : Q) (k : nat) :
  b ^ Z.of_nat (S k) == b ^ Z.of_nat k * b.
Proof.
  rewrite Nat2Z.inj_succ. unfold Z.succ. apply Qpower_succ. lia.
Qed.

Lemma range_length (lo hi : Z) :
  List.length (range lo hi) = Z.to_nat (hi - lo).
Proof. unfold range. now rewrite length_map, length_seq. Qed.

Lemma range_nth (lo hi : Z) (k : nat) (d : Z) :
  (k < Z.to_nat (hi - lo))%nat ->
  nth k (range lo hi) d = (lo + Z.of_nat k)%Z.
Proof.
  intros Hk. unfold range.
  rewrite nth_indep with (d' := (lo + Z.of_nat 0)%Z)
    by (now rewrite length_map, length_seq).
  change (lo + Z.of_nat 0)%Z with ((fun i => (lo + Z.of_nat i)%Z) O).
  rewrite map_nth, seq_nth by exact Hk. reflexivity.
Qed.

End PyFacts.

(** * Facts about the annuity helpers *)

Module AppFacts.
Import Py App PyFacts.

Local Open Scope Q_scope.

Lemma fvo_zero_rate (P r : Q) (n : Z) :
  r == 0 -> fv_annuity_ordinary P r n = Ok (P * inject_Z n).
Proof.
  intros Hr. unfold fv_annuity_ordinary.
  now rewrite (Qeq_eq_bool _ _ Hr).
Qed.

Lemma fvo_closed_form (P r : Q) (n : Z) :
  ~ r == 0 -> (0 <= n)%Z ->
  fv_annuity_ordinary P r n = Ok (P * ((1 + r) ^ n - 1) / r).
Proof.
  intros Hr Hn. unfold fv_annuity_ordinary.
  destruct (Qeq_bool r 0) eqn:E.
  - apply Qeq_bool_eq in E. contradiction.
  - rewrite pow_nonneg_exponent by exact Hn. cbn [bind].
    now apply div_nonzero.
Qed.

Lemma fvo_total (P r : Q) (n : Z) :
  (0 <= n)%Z -> exists v, fv_annuity_ordinary P r n = Ok v.
Proof.
  intros Hn. destruct (Qeq_dec r 0) as [Hr | Hr].
  - eexists. now apply fvo_zero_rate.
  - eexists. now apply fvo_closed_form.
Qed.

Lemma fv_annuity_of_base (P r : Q) (n : Z) (due : bool) (base : Q) :
  fv_annuity_ordinary P r n = Ok base ->
  fv_annuity P r n due = Ok (if due then base * (1 + r) else base).
Proof. intros H. unfold fv_annuity. now rewrite H. Qed.

Lemma fv_annuity_total (P r : Q) (n : Z) (due : bool) :
  (0 <= n)%Z -> exists v, fv_annuity P r n due = Ok v.
Proof.
  intros Hn. destruct (fvo_total P r n Hn) as [b Hb].
  eexists. apply fv_annuity_of_base. exact Hb.
Qed.

(** One more period adds the deposit compounded over the periods already
    elapsed. *)
Lemma fvo_step (P r : Q) (n : Z) (a b : Q) :
  (0 <= n)%Z ->
  fv_annuity_ordinary P r n = Ok a ->
  fv_annuity_ordinary P r (n + 1) = Ok b ->
  b == a + P * (1 + r) ^ n.
Proof.
  intros Hn Ha Hb. destruct (Qeq_dec r 0) as [Hr | Hr].
  - rewrite fvo_zero_rate in Ha, Hb by exact Hr.
    injection Ha as <-. injection Hb as <-.
    rewrite inject_Z_plus, Hr. rewrite Qplus_0_r, Qpower_1. 
    change (inject_Z 1) with 1. ring.
  - rewrite fvo_closed_form in Ha by (assumption || lia).
    rewrite fvo_closed_form in Hb by (assumption || lia).
    injection Ha as <-. injection Hb as <-.
    rewrite Qpower_succ by exact Hn. field. exact Hr.
Qed.

(** The closed form agrees with the period-by-period balance. *)
Lemma fvo_ordinary_balance (P r : Q) (k : nat) :
  returns (fv_annuity_ordinary P r (Z.of_nat k)) (Spec.ordinary_balance P r k).
Proof.
  destruct (Qeq_dec r 0) as [Hr | Hr].
  - rewrite fvo_zero_rate by exact Hr. cbn [returns].
    induction k as [| k IH].
    + cbn. ring.
    + cbn [Spec.ordinary_balance]. rewrite <- IH.
      rewrite Nat2Z.inj_succ. unfold Z.succ. rewrite inject_Z_plus, Hr.
      change (inject_Z 1) with 1. ring.
  - rewrite fvo_closed_form by (assumption || lia). cbn [returns].
    induction k as [| k IH].
    + cbn. field. exact Hr.
    + cbn [Spec.ordinary_balance]. rewrite <- IH.
      rewrite Qpower_of_nat_succ. field. exact Hr.
Qed.

Lemma compound_factor_pos (r : Q) (n : Z) : -1 < r -> 0 < (1 + r) ^ n.
Proof. intros Hr. apply Qpower_0_lt. lra. Qed.



End AppFacts.

(** * Facts about the script body *)

Module ScriptFacts.
Import Py App PyFacts AppFacts.

Local Open Scope Q_scope.

Lemma years_of_months (w : widgets) : years w = (months w / 12)%Z.
Proof.
  unfold years, months, years_months, int.
  destruct (w_durasi_unit w =? "Tahun")%string; cbn [fst snd].
  - now rewrite Z.div_mul.
  - reflexivity.
Qed.

Lemma Forall2_nth_error {A B} (R : A -> B -> Prop) xs ys k x :
  Forall2 R xs ys -> nth_error xs k = Some x ->
  exists y, nth_error ys k = Some y /\ R x y.
Proof.
  intros H. revert k. induction H as [| a b xs ys Hab _ IH]; intros k Hk.
  - destruct k; discriminate.
  - destruct k as [| k]; cbn in *.
    + injection Hk as <-. eauto.
    + now apply IH.
Qed.

Lemma range_nth_error (lo hi : Z) (k : nat) :
  (k < Z.to_nat (hi - lo))%nat ->
  nth_error (range lo hi) k = Some (lo + Z.of_nat k)%Z.
Proof.
  intros Hk. unfold range.
  rewrite nth_error_map, nth_error_seq.
  destruct (Nat.ltb_spec k (Z.to_nat (hi - lo))); [reflexivity | lia].
Qed.

Lemma range_lower_bound (lo hi : Z) : Forall (fun x => (lo <= x)%Z) (range lo hi).
Proof.
  unfold range. apply Forall_forall. intros x Hx.
  apply in_map_iff in Hx as [k [<- _]]. lia.
Qed.

(** The comprehension of line 106 yields one value per month, in order. *)
Lemma comprehension_fv (P r : Q) (due : bool) (ms : list Z) :
  Forall (fun m => (0 <= m)%Z) ms ->
  exists vs,
    comprehension (fun m => fv_annuity P r m due) ms = Ok vs /\
    Forall2 (fun m v => fv_annuity P r m due = Ok v) ms vs.
Proof.
  induction 1 as [| m ms Hm _ [vs [Hvs HF]]].
  - exists []. split; [reflexivity | constructor].
  - destruct (fv_annuity_total P r m due Hm) as [v Hv].
    exists (v :: vs). cbn [comprehension]. rewrite Hv, Hvs. cbn [bind].
    split; [reflexivity | now constructor].
Qed.

(** The loop of lines 88-95 appends one row per year, in order. *)
Lemma records_loop (P : Z) (r : Q) (due : bool) (ys : list Z) :
  Forall (fun y => (0 <= y)%Z) ys ->
  forall acc, exists rows,
    for_each ys (records_body P r due) acc = Ok (acc ++ rows) /\
    Forall2 (Spec.is_yearly_row P r due) ys rows.
Proof.
  induction 1 as [| y ys Hy _ IH]; intros acc.
  - exists []. split; [cbn; now rewrite app_nil_r | constructor].
  - assert (0 <= y * 12)%Z as Hm by lia.
    destruct (fv_annuity_total (inject_Z P) r (y * 12) due Hm) as [v Hv].
    set (row := {| Tahun := y; Setoran_Kumulatif := (P * (y * 12))%Z;
                   Future_Value := v;
                   Bunga_Return := v - inject_Z (P * (y * 12)) |}).
    destruct (IH (acc ++ [row])) as [rows [Hrows HF]].
    exists (row :: rows). split.
    + cbn [for_each]. unfold records_body at 1. rewrite Hv. cbn [bind].
      fold row. rewrite Hrows. now rewrite <- app_assoc.
    + constructor; [| exact HF]. now repeat split.
Qed.

Lemma records_table (P : Z) (r : Q) (due : bool) (years : Z) :
  exists t,
    records P r due years = Ok t /\
    Forall2 (Spec.is_yearly_row P r due)
            (range 1 (years + 1)) (Spec.yearly_entries t) /\
    (t = None <-> (years < 1)%Z).
Proof.
  unfold records. destruct (Z.leb_spec 1 years) as [Hy | Hy].
  - destruct (records_loop P r due (range 1 (years + 1))) with (acc := @nil yearly_row)
      as [rows [Hrows HF]].
    { eapply Forall_impl; [| apply range_lower_bound]. cbn. intros; lia. }
    rewrite Hrows. cbn [bind app]. exists (Some rows).
    split; [reflexivity |]. split; [exact HF |].
    split; [discriminate | lia].
  - exists None. split; [reflexivity |]. split.
    + unfold range. replace (Z.to_nat (years + 1 - 1)) with O by lia.
      constructor.
    + split; [intros _; exact Hy | reflexivity].
Qed.

Lemma progress_list (P : Z) (r : Q) (due : bool) (months : Z) :
  exists prog,
    progress P r due months = Ok prog /\
    Forall2 (fun m v => fv_annuity (inject_Z P) r m due = Ok v)
            (range 1 (months + 1)) prog.
Proof.
  unfold progress, int. apply comprehension_fv.
  eapply Forall_impl; [| apply range_lower_bound]. cbn. intros; lia.
Qed.

End ScriptFacts.

(** * The claims *)

Import Py App PyFacts AppFacts ScriptFacts.

Local Open Scope Q_scope.

(** C1.  For a deposit [P >= 0] and a positive number of periods [n],
    whenever [fv_annuity_ordinary] returns, the value is [P * n] when
    [r == 0] and [P * ((1 + r) ^ n - 1) / r] otherwise; and it does return
    for every rate and duration the page can ask for ([0 <= r <= 1/2],
    [n <= 600]). *)
Theorem fv_annuity_ordinary_contract (P r : Q) (n : Z) :
  0 <= P -> (1 <= n)%Z ->
  (forall v,
     fv_annuity_ordinary P r n = Ok v ->
     (r == 0 -> v = P * inject_Z n) /\
     (~ r == 0 -> v = P * ((1 + r) ^ n - 1) / r)) /\
  (0 <= r <= 1 # 2 -> (n <= 600)%Z ->
   exists v, fv_annuity_ordinary P r n = Ok v).
Proof.
  intros _ Hn. split.
  - intros v Hv. split; intros Hr.
    + rewrite fvo_zero_rate in Hv by exact Hr. now injection Hv as <-.
    + rewrite fvo_closed_form in Hv by (exact Hr || lia).
      now injection Hv as <-.
  - intros _ _. apply fvo_total. lia.
Qed.

Lemma fv_annuity_ordinary_contract_witness :
  exists v,
    fv_annuity_ordinary 400000 (5 / 100 / 12) 96 = Ok v /\
    v = 400000 * ((1 + 5 / 100 / 12) ^ 96 - 1) / (5 / 100 / 12).
Proof.
  assert (0 <= 400000) as HP by (unfold Qle; simpl; lia).
  assert (1 <= 96)%Z as Hn by lia.
  destruct (fv_annuity_ordinary_contract 400000 (5 / 100 / 12) 96 HP Hn)
    as [Hval Hret].
  destruct Hret as [v Hv].
  - split; unfold Qle; simpl; lia.
  - lia.
  - exists v. split; [exact Hv |].
    apply (proj2 (Hval v Hv)). intros H. vm_compute in H. discriminate H.
Defined.

(** C2.  For a positive number of periods, [fv_annuity] with [due = False]
    does exactly what [fv_annuity_ordinary] does, and whenever that call
    returns a value, [fv_annuity] with [due = True] returns that value
    times [1 + r]; both modes return for every rate and duration the page
    can ask for. *)
Theorem fv_annuity_timing (P r : Q) (n : Z) :
  (1 <= n)%Z ->
  fv_annuity P r n false = fv_annuity_ordinary P r n /\
  (forall base,
     fv_annuity_ordinary P r n = Ok base ->
     fv_annuity P r n false = Ok base /\
     fv_annuity P r n true = Ok (base * (1 + r))) /\
  (0 <= r <= 1 # 2 -> (n <= 600)%Z ->
   forall due, exists v, fv_annuity P r n due = Ok v).
Proof.
  intros Hn. split; [| split].
  - unfold fv_annuity. now destruct (fv_annuity_ordinary P r n).
  - intros base Hb.
    split; [apply (fv_annuity_of_base _ _ _ false _ Hb)
           | apply (fv_annuity_of_base _ _ _ true _ Hb)].
  - intros _ _ due. apply fv_annuity_total. lia.
Qed.

Lemma fv_annuity_timing_witness :
  exists base,
    fv_annuity_ordinary 400000 (5 / 100 / 12) 96 = Ok base /\
    fv_annuity 400000 (5 / 100 / 12) 96 true
    = Ok (base * (1 + 5 / 100 / 12)).
Proof.
  assert (1 <= 96)%Z as Hn by lia.
  destruct (fv_annuity_timing 400000 (5 / 100 / 12) 96 Hn) as [_ [Hb _]].
  destruct (fv_annuity_ordinary 400000 (5 / 100 / 12) 96)
    as [base | e] eqn:E.
  - exists base. split; [reflexivity |]. exact (proj2 (Hb base eq_refl)).
  - vm_compute in E. discriminate E.
Defined.

(** C3, as stated, fails: with a deposit of zero the future value is zero
    after one month and after two, so it does not increase. *)
Lemma fv_annuity_flat_for_zero_deposit :
  ~ Spec.fv_increases_at 0 (5 / 100 / 12) 1 false.
Proof.
  intros [a [b [Ha [Hb Hlt]]]].
  vm_compute in Ha. vm_compute in Hb.
  injection Ha as <-. injection Hb as <-.
  vm_compute in Hlt. discriminate Hlt.
Qed.

(** C3, amended.  For every deposit and rate the page can produce with a
    deposit above zero and a return above zero (a whole deposit below
    2^53, a percentage that is a multiple of 0.1 up to 50, taken per month
    or per year), in either timing mode, the future value after [n + 1]
    periods is strictly above the future value after [n] periods, for
    [1 <= n < 600]. *)
Theorem fv_annuity_strictly_increasing (P : Z) (period_choice : string)
    (r_percent : Q) (n : Z) (due : bool) :
  (0 < P < 2 ^ 53)%Z -> Page.on_slider r_percent -> (1 <= n < 600)%Z ->
  Spec.fv_increases_at (inject_Z P) (r_month period_choice r_percent) n due.
Proof.
  intros [HP _] [k [Hk Hp]] Hn.
  assert (0 < inject_Z P) as HP'
    by (change 0 with (inject_Z 0); now rewrite <- Zlt_Qlt).
  assert (0 < r_percent) as Hpos.
  { rewrite Hp. apply Qlt_shift_div_l; [reflexivity |]. rewrite Qmult_0_l.
    change 0 with (inject_Z 0). rewrite <- Zlt_Qlt. lia. }
  assert (0 < r_month period_choice r_percent) as Hr.
  { unfold r_month. destruct (period_choice =? "Per Bulan")%string.
    - apply Qlt_shift_div_l; [reflexivity | lra].
    - apply Qlt_shift_div_l; [reflexivity |]. rewrite Qmult_0_l.
      apply Qlt_shift_div_l; [reflexivity | lra]. }
  set (r := r_month period_choice r_percent) in *.
  destruct (fvo_total (inject_Z P) r n) as [a Ha]; [lia |].
  destruct (fvo_total (inject_Z P) r (n + 1)) as [b Hb]; [lia |].
  assert (b == a + inject_Z P * (1 + r) ^ n) as Hstep
    by (apply (fvo_step (inject_Z P) r n a b); [lia | exact Ha | exact Hb]).
  assert (0 < inject_Z P * (1 + r) ^ n) as Hgain.
  { apply Qmult_lt_0_compat; [exact HP' |]. apply compound_factor_pos. lra. }
  exists (if due then a * (1 + r) else a), (if due then b * (1 + r) else b).
  split; [apply (fv_annuity_of_base _ _ _ due _ Ha) |].
  split; [apply (fv_annuity_of_base _ _ _ due _ Hb) |].
  destruct due.
  - rewrite Hstep. nra.
  - rewrite Hstep. lra.
Qed.

Lemma fv_annuity_strictly_increasing_witness :
  Spec.fv_increases_at (inject_Z 400000) (r_month "Per Tahun" 5) 96 true.
Proof.
  apply (fv_annuity_strictly_increasing 400000 "Per Tahun" 5 96 true).
  - split; [reflexivity | reflexivity].
  - exists 50%Z. split; [lia | reflexivity].
  - lia.
Defined.







(** C10.  With zero periods and a rate [r > -1], both helpers return
    normally, with the value zero, in either timing mode. *)
Theorem zero_periods_return_zero (P r : Q) (due : bool) :
  -1 < r ->
  returns (fv_annuity_ordinary P r 0) 0 /\
  returns (fv_annuity P r 0 due) 0.
Proof.
  intros _.
  assert (returns (fv_annuity_ordinary P r 0) 0) as Hord.
  { destruct (Qeq_dec r 0) as [Hr | Hr].
    - rewrite fvo_zero_rate by exact Hr. cbn. ring.
    - rewrite fvo_closed_form by (assumption || lia). cbn [returns].
      rewrite Qpower_0_r. field. exact Hr. }
  split; [exact Hord |].
  destruct (fv_annuity_ordinary P r 0) as [base | e] eqn:Hb; [| contradiction].
  rewrite (fv_annuity_of_base _ _ _ due _ Hb). cbn [returns] in *.
  destruct due; rewrite Hord; ring.
Qed.

Lemma zero_periods_return_zero_witness :
  -1 < 1 # 10 /\
  returns (fv_annuity_ordinary 400000 (1 # 10) 0) 0 /\
  returns (fv_annuity 400000 (1 # 10) 0 true) 0.
Proof.
  assert (-1 < 1 # 10) as Hr by reflexivity.
  split; [exact Hr |].
  exact (zero_periods_return_zero 400000 (1 # 10) true Hr).
Defined.

(** C7.  The monthly rate is [(a / 100) / 12] for a yearly percentage [a]
    and [p / 100] for a monthly percentage [p], with no other conversion,
    and it is the rate every computation of a run is made with. *)
Theorem rate_conversion_linear (a p : Q) :
  r_month "Per Tahun" a = (a / 100) / 12 /\
  r_month "Per Bulan" p = p / 100 /\
  (forall w pg,
      run w = Ok pg ->
      let r := r_month (w_period_choice w) (w_r_percent w) in
      fv_annuity (inject_Z (w_P w)) r (months w) (is_due w) = Ok (FV pg) /\
      records (w_P w) r (is_due w) (years w) = Ok (df_yearly pg) /\
      progress (w_P w) r (is_due w) (months w) = Ok (df_progress pg)).
Proof.
  split; [reflexivity |]. split; [reflexivity |].
  intros w pg Hrun r. unfold run in Hrun. fold r in Hrun.
  unfold int in Hrun.
  destruct (fv_annuity (inject_Z (w_P w)) r (months w) (is_due w))
    as [fv | e]; [| discriminate Hrun].
  destruct (records (w_P w) r (is_due w) (years w))
    as [yearly | e]; [| discriminate Hrun].
  destruct (progress (w_P w) r (is_due w) (months w))
    as [prog | e]; [| discriminate Hrun].
  cbn [bind] in Hrun. injection Hrun as <-. cbn. now repeat split.
Qed.

Lemma rate_conversion_linear_witness :
  exists pg,
    run Sample.defaults = Ok pg /\
    fv_annuity 400000 (5 / 100 / 12) 96 false = Ok (FV pg).
Proof.
  destruct (run Sample.defaults) as [pg | e] eqn:Hrun.
  - exists pg. split; [reflexivity |].
    exact (proj1 (proj2 (proj2 (rate_conversion_linear 5 1))
                   Sample.defaults pg Hrun)).
  - vm_compute in Hrun. discriminate Hrun.
Defined.

(** The yearly conversion is nominal: at 12% a year the monthly rate
    compounds over twelve months to more than 12%. *)
Example nominal_rate_is_not_effective :
  12 / 100 < (1 + r_month "Per Tahun" 12) ^ 12 - 1.
Proof. reflexivity. Qed.

(** C8.  For a duration of 1 to 600 months, a run returns normally; the
    monthly progression has one entry per month [m = 1 .. months], in
    that order, each the value of [fv_annuity] at [m]; the yearly
    progression has [months / 12] entries (floor division), one per year
    [y = 1 .. months / 12], in that order, each computed at [y * 12]
    periods, the last one at [(months / 12) * 12].  The yearly table is
    left out exactly when [months < 12], the case of no entries. *)
Theorem progression_tables (w : widgets) :
  (1 <= months w <= 600)%Z ->
  exists pg,
    run w = Ok pg /\
    List.length (df_progress pg) = Z.to_nat (months w) /\
    (forall m, (1 <= m <= months w)%Z ->
       exists v,
         nth_error (df_progress pg) (Z.to_nat (m - 1)) = Some v /\
         fv_annuity (inject_Z (w_P w))
                    (r_month (w_period_choice w) (w_r_percent w))
                    m (is_due w) = Ok v) /\
    List.length (Spec.yearly_entries (df_yearly pg))
    = Z.to_nat (months w / 12) /\
    (forall y, (1 <= y <= months w / 12)%Z ->
       exists row,
         nth_error (Spec.yearly_entries (df_yearly pg)) (Z.to_nat (y - 1))
         = Some row /\
         Tahun row = y /\
         fv_annuity (inject_Z (w_P w))
                    (r_month (w_period_choice w) (w_r_percent w))
                    (y * 12) (is_due w) = Ok (Future_Value row)) /\
    (forall row,
       nth_error (Spec.yearly_entries (df_yearly pg))
                 (Nat.pred (Z.to_nat (months w / 12))) = Some row ->
       fv_annuity (inject_Z (w_P w))
                  (r_month (w_period_choice w) (w_r_percent w))
                  (months w / 12 * 12) (is_due w) = Ok (Future_Value row)) /\
    (df_yearly pg = None <-> (months w < 12)%Z).
Proof.
  intros HT.
  set (r := r_month (w_period_choice w) (w_r_percent w)).
  destruct (fv_annuity_total (inject_Z (w_P w)) r (months w) (is_due w))
    as [fv Hfv]; [lia |].
  destruct (records_table (w_P w) r (is_due w) (years w))
    as [yearly [Hyearly [Hrows Hnone]]].
  destruct (progress_list (w_P w) r (is_due w) (months w))
    as [prog [Hprog Hvals]].
  rewrite years_of_months in Hrows, Hnone.
  eexists. split.
  { unfold run, int. fold r. rewrite Hfv, Hyearly, Hprog. reflexivity. }
  cbn [df_progress df_yearly].
  pose proof (Forall2_length Hvals) as Lp. rewrite range_length in Lp.
  pose proof (Forall2_length Hrows) as Ly. rewrite range_length in Ly.
  assert (forall y, (1 <= y <= months w / 12)%Z ->
            exists row,
              nth_error (Spec.yearly_entries yearly) (Z.to_nat (y - 1))
              = Some row /\ Spec.is_yearly_row (w_P w) r (is_due w) y row)
    as Hyear.
  { intros y Hy.
    destruct (Forall2_nth_error _ _ _ (Z.to_nat (y - 1)) y Hrows)
      as [row [Hrow Hspec]].
    - rewrite range_nth_error by lia. f_equal. lia.
    - now exists row. }
  split; [rewrite <- Lp; f_equal; lia |].
  split.
  { intros m Hm.
    destruct (Forall2_nth_error _ _ _ (Z.to_nat (m - 1)) m Hvals)
      as [v [Hv Hspec]].
    - rewrite range_nth_error by lia. f_equal. lia.
    - now exists v. }
  split; [rewrite <- Ly; f_equal; lia |].
  split.
  { intros y Hy. destruct (Hyear y Hy) as [row [Hrow [Ht [_ [Hv _]]]]].
    now exists row. }
  split.
  2:{ rewrite Hnone. split; intros H.
      - destruct (Z.lt_ge_cases (months w) 12) as [Hlt | Hge];
          [exact Hlt |].
        assert (1 <= months w / 12)%Z
          by (apply Z.div_le_lower_bound; lia).
        lia.
      - apply Z.div_lt_upper_bound; lia. }
  intros row Hrow.
  assert (1 <= months w / 12)%Z as Hpos.
  { assert (Nat.pred (Z.to_nat (months w / 12))
            < List.length (Spec.yearly_entries yearly))%nat as Hlt
      by (apply nth_error_Some; rewrite Hrow; discriminate).
    rewrite <- Ly in Hlt. lia. }
  destruct (Hyear (months w / 12)%Z) as [row' [Hrow' [_ [_ [Hv _]]]]]; [lia |].
  replace (Z.to_nat (months w / 12 - 1)) with (Nat.pred (Z.to_nat (months w / 12)))
    in Hrow' by lia.
  rewrite Hrow in Hrow'. injection Hrow' as <-. exact Hv.
Qed.

Lemma progression_tables_witness :
  (1 <= months Sample.thirty_months <= 600)%Z /\
  exists pg,
    run Sample.thirty_months = Ok pg /\
    List.length (df_progress pg) = 30%nat /\
    List.length (Spec.yearly_entries (df_yearly pg)) = 2%nat.
Proof.
  assert (1 <= months Sample.thirty_months <= 600)%Z as HT
    by (vm_compute; split; discriminate).
  split; [exact HT |].
  destruct (progression_tables Sample.thirty_months HT)
    as [pg [Hrun [Lp [_ [Ly _]]]]].
  exists pg. split; [exact Hrun |]. split; [exact Lp | exact Ly].
Defined.

(** C9.  [fmt_rp(1234567)] is the rounded integer with its digits in
    groups of three separated by dots, ["1.234.567"], after the currency
    prefix ["Rp"]; [fmt_rp("abc")] is ["abc"]. *)
Theorem fmt_rp_examples (float_repr : pyfloat -> string) :
  fmt_rp float_repr (VInt 1234567) = Ok ("Rp" ++ "1.234.567")%string /\
  fmt_rp float_repr (VFloat (Fin 1234567)) = Ok ("Rp" ++ "1.234.567")%string /\
  fmt_rp float_repr (VStr "abc") = Ok "abc"%string.
Proof. repeat split; reflexivity. Qed.

(** What [fmt_rp] does guarantee: the text of the input whenever
    [float] raises one of the two exceptions caught, and a formatted
    amount for every finite number. *)
Lemma fmt_rp_fallback (float_repr : pyfloat -> string) (x : value) :
  float x = Raise ValueError \/ float x = Raise TypeError ->
  fmt_rp float_repr x = Ok (str float_repr x).
Proof. unfold fmt_rp. now intros [-> | ->]. Qed.

Lemma fmt_rp_finite (float_repr : pyfloat -> string) (x : value) (q : Q) :
  float x = Ok (Fin q) ->
  exists s, fmt_rp float_repr x = Ok s.
Proof. unfold fmt_rp. intros ->. cbn. eauto. Qed.

(** C4.  [fmt_rp] raises on a value that [float] accepts and [round]
    rejects: a [nan] raises [ValueError] and an infinity raises
    [OverflowError], whether passed as a float or as text.  The call to
    [round] is outside the [try]. *)
Theorem fmt_rp_raises_on_nan_and_inf (float_repr : pyfloat -> string) :
  fmt_rp float_repr (VFloat NaN) = Raise ValueError /\
  fmt_rp float_repr (VStr "nan") = Raise ValueError /\
  fmt_rp float_repr (VFloat PosInf) = Raise OverflowError /\
  fmt_rp float_repr (VStr "-inf") = Raise OverflowError.
Proof. repeat split; reflexivity. Qed.

(** [float] rounds what it converts: an integer past 2^53 goes to the
    nearest float, one past the largest float raises, and a decimal text
    is read as the nearest float, or as an infinity. *)
Example fmt_rp_rounds_its_input (float_repr : pyfloat -> string) :
  fmt_rp float_repr (VInt (2 ^ 53 + 1)) = Ok "Rp9.007.199.254.740.992"%string /\
  fmt_rp float_repr (VInt (10 ^ 400)) = Raise OverflowError /\
  fmt_rp float_repr (VStr "1e400") = Raise OverflowError /\
  fmt_rp float_repr (VStr "2.5000000000000001") = Ok "Rp2"%string.
Proof. repeat split; vm_compute; reflexivity. Qed.

(** * The helpers in binary64, on concrete inputs *)

(** Where the code leaves the formula.  On the default page (Rp400.000 a
    month, 5% a year) the first month is worth 399999.9999999986, a little
    under the deposit, and eight years are worth 47096204.920573846. *)
Example binary64_default_page :
  let P := B64.decimal 400000 1 in
  let r := B64.r_month "Per Tahun" (B64.decimal 5 1) in
  B64.fv_annuity_ordinary P r 1 = Ok (B64.decimal 3999999999999986 10000000000) /\
  B64.fv_annuity P r 96 false = Ok (B64.decimal 47096204920573846 1000000000).
Proof. split; vm_compute; reflexivity. Qed.

(** A rate below 2^-53 is absorbed by [1 + r]: the power is 1 and the
    value is zero whatever the number of periods. *)
Example binary64_tiny_rate_is_flat :
  let P := B64.decimal 400000 1 in
  let r := B64.decimal 1 100000000000000000 in
  B64.fv_annuity P r 1 false = Ok PrimFloat.zero /\
  B64.fv_annuity P r 2 false = Ok PrimFloat.zero /\
  B64.fv_annuity P r 600 true = Ok PrimFloat.zero.
Proof. repeat split; vm_compute; reflexivity. Qed.

(** A power past the largest float raises: [2.0 ** 1024]. *)
Example binary64_power_overflows :
  B64.fv_annuity_ordinary PrimFloat.one PrimFloat.one 1024
  = Raise OverflowError /\
  B64.fv_annuity PrimFloat.one PrimFloat.one 1024 true = Raise OverflowError.
Proof. split; vm_compute; reflexivity. Qed.

(** Inside the page's limits the power stays far below the largest float:
    the highest rate over the longest duration. *)
Example binary64_largest_page_power :
  B64.pow (B64.decimal 15 10) 600
  = Ok (B64.decimal (45160155993586 * 10 ^ 92) 1).
Proof. vm_compute. reflexivity. Qed.

(** * Further properties of the annuity helpers *)

Module AnnuityFacts.
Import Py App PyFacts AppFacts.

Local Open Scope Q_scope.

(** For a non-negative number of periods the ordinary value is a number
    equal to the period-by-period balance. *)
Lemma fvo_value (P r : Q) (n : Z) :
  (0 <= n)%Z ->
  exists v, fv_annuity_ordinary P r n = Ok v /\
            v == Spec.ordinary_balance P r (Z.to_nat n).
Proof.
  intros Hn. pose proof (fvo_ordinary_balance P r (Z.to_nat n)) as H.
  rewrite Z2Nat.id in H by exact Hn.
  destruct (fv_annuity_ordinary P r n) as [v | e]; [| contradiction].
  now exists v.
Qed.

Lemma fv_value (P r : Q) (n : Z) (due : bool) :
  (0 <= n)%Z ->
  exists v, fv_annuity P r n due = Ok v /\
            v == (if due then Spec.ordinary_balance P r (Z.to_nat n) * (1 + r)
                  else Spec.ordinary_balance P r (Z.to_nat n)).
Proof.
  intros Hn. destruct (fvo_value P r n Hn) as [b [Hb Eb]].
  rewrite (fv_annuity_of_base _ _ _ due _ Hb).
  eexists. split; [reflexivity |]. destruct due; now rewrite Eb.
Qed.

Lemma balance_strictly_increasing (P r : Q) (k : nat) :
  0 < P -> -1 < r ->
  Spec.ordinary_balance P r k < Spec.ordinary_balance P r (S k).
Proof.
  intros HP Hr. induction k as [| k IH].
  - cbn. lra.
  - cbn [Spec.ordinary_balance] in *. nra.
Qed.

Lemma balance_increasing_between (P r : Q) (j k : nat) :
  0 < P -> -1 < r -> (j < k)%nat ->
  Spec.ordinary_balance P r j < Spec.ordinary_balance P r k.
Proof.
  intros HP Hr Hjk. induction Hjk as [| k _ IH].
  - now apply balance_strictly_increasing.
  - eapply Qlt_trans; [exact IH |]. now apply balance_strictly_increasing.
Qed.

End AnnuityFacts.

Import AnnuityFacts.



(** * Further properties of the script body *)

Module PageFacts.
Import Py App PyFacts AppFacts ScriptFacts AnnuityFacts.

Local Open Scope Q_scope.

(** What a returning run is made of. *)
Lemma run_inv (w : widgets) (pg : page) :
  run w = Ok pg ->
  exists fv yearly prog,
    fv_annuity (inject_Z (w_P w)) (Page.rate w) (months w) (is_due w) = Ok fv /\
    records (w_P w) (Page.rate w) (is_due w) (years w) = Ok yearly /\
    progress (w_P w) (Page.rate w) (is_due w) (months w) = Ok prog /\
    pg = {| FV := fv;
            principal := (w_P w * months w)%Z;
            interest := fv - inject_Z (w_P w * months w);
            df_yearly := yearly;
            df_progress := prog;
            df_monthly := df_progress_tbl (w_P w) (months w) prog |}.
Proof.
  unfold run, int. fold (Page.rate w). intros Hrun.
  destruct (fv_annuity (inject_Z (w_P w)) (Page.rate w) (months w) (is_due w))
    as [fv | e]; [| discriminate Hrun].
  destruct (records (w_P w) (Page.rate w) (is_due w) (years w))
    as [yearly | e]; [| discriminate Hrun].
  destruct (progress (w_P w) (Page.rate w) (is_due w) (months w))
    as [prog | e]; [| discriminate Hrun].
  cbn [bind] in Hrun. injection Hrun as <-.
  now exists fv, yearly, prog.
Qed.

(** The rows of a returning run, in terms of the months and years they
    stand for. *)
Lemma run_rows (w : widgets) (pg : page) :
  run w = Ok pg ->
  Forall2 (fun m v =>
             fv_annuity (inject_Z (w_P w)) (Page.rate w) m (is_due w) = Ok v)
          (range 1 (months w + 1)) (df_progress pg) /\
  Forall2 (Spec.is_yearly_row (w_P w) (Page.rate w) (is_due w))
          (range 1 (months w / 12 + 1))
          (Spec.yearly_entries (df_yearly pg)) /\
  df_monthly pg = df_progress_tbl (w_P w) (months w) (df_progress pg).
Proof.
  intros Hrun.
  destruct (run_inv w pg Hrun) as [fv [yearly [prog [_ [Hy [Hp ->]]]]]].
  cbn [df_progress df_yearly df_monthly].
  destruct (progress_list (w_P w) (Page.rate w) (is_due w) (months w))
    as [prog' [Hp' Hvals]].
  destruct (records_table (w_P w) (Page.rate w) (is_due w) (years w))
    as [yearly' [Hy' [Hrows _]]].
  rewrite Hp in Hp'. injection Hp' as <-.
  rewrite Hy in Hy'. injection Hy' as <-.
  rewrite years_of_months in Hrows. now repeat split.
Qed.

Lemma Forall2_nth_error_r {A B} (R : A -> B -> Prop) xs ys k y :
  Forall2 R xs ys -> nth_error ys k = Some y ->
  exists x, nth_error xs k = Some x /\ R x y.
Proof.
  intros H. revert k. induction H as [| a b xs ys Hab _ IH]; intros k Hk.
  - destruct k; discriminate.
  - destruct k as [| k]; cbn in *.
    + injection Hk as <-. eauto.
    + now apply IH.
Qed.

Lemma Forall2_Forall_r {A B} (R : A -> B -> Prop) (Q : B -> Prop) xs ys :
  Forall2 R xs ys -> (forall x y, R x y -> Q y) -> Forall Q ys.
Proof.
  intros H HQ. induction H; constructor; eauto.
Qed.

Lemma range_nth_error_inv (lo hi : Z) (k : nat) (x : Z) :
  nth_error (range lo hi) k = Some x ->
  x = (lo + Z.of_nat k)%Z /\ (k < Z.to_nat (hi - lo))%nat.
Proof.
  intros H.
  assert (k < Z.to_nat (hi - lo))%nat as Hk.
  { rewrite <- range_length. apply nth_error_Some. rewrite H. discriminate. }
  rewrite range_nth_error in H by exact Hk. injection H as <-. now split.
Qed.

Lemma nth_error_combine {A B} (xs : list A) (ys : list B) k x y :
  nth_error xs k = Some x -> nth_error ys k = Some y ->
  nth_error (combine xs ys) k = Some (x, y).
Proof.
  revert ys k. induction xs as [| a xs IH]; intros ys k Hx Hy.
  - destruct k; discriminate.
  - destruct ys as [| b ys]; [destruct k; discriminate |].
    destruct k as [| k]; cbn in *.
    + now injection Hx as <-; injection Hy as <-.
    + now apply IH.
Qed.

Lemma nth_error_combine_inv {A B} (xs : list A) (ys : list B) k x y :
  nth_error (combine xs ys) k = Some (x, y) ->
  nth_error xs k = Some x /\ nth_error ys k = Some y.
Proof.
  revert ys k. induction xs as [| a xs IH]; intros ys k H.
  - destruct k; discriminate.
  - destruct ys as [| b ys]; [destruct k; discriminate |].
    destruct k as [| k]; cbn in *.
    + injection H as <- <-. now split.
    + now apply IH.
Qed.

(** At a zero rate both timing modes return the sum of the deposits. *)
Lemma fv_annuity_zero_rate (P r : Q) (n : Z) (due : bool) (v : Q) :
  r == 0 -> fv_annuity P r n due = Ok v -> v == P * inject_Z n.
Proof.
  intros Hr. rewrite (fv_annuity_of_base P r n due (P * inject_Z n))
    by (now apply fvo_zero_rate).
  intros H. injection H as <-. destruct due; [rewrite Hr; ring | reflexivity].
Qed.

Lemma rate_nonneg (choice : string) (p : Q) : 0 <= p -> 0 <= r_month choice p.
Proof.
  intros Hp. unfold r_month.
  destruct (choice =? "Per Bulan")%string.
  - apply Qle_shift_div_l; [reflexivity | lra].
  - apply Qle_shift_div_l; [reflexivity |]. rewrite Qmult_0_l.
    apply Qle_shift_div_l; [reflexivity | lra].
Qed.

Lemma rate_zero (choice : string) (p : Q) : p == 0 -> r_month choice p == 0.
Proof.
  intros Hp. unfold r_month.
  destruct (choice =? "Per Bulan")%string; rewrite Hp; reflexivity.
Qed.

Lemma fv_lt_later (P r : Q) (m n : Z) (due : bool) (a b : Q) :
  0 < P -> -1 < r -> (0 <= m < n)%Z ->
  fv_annuity P r m due = Ok a -> fv_annuity P r n due = Ok b -> a < b.
Proof.
  intros HP Hr Hmn Ha Hb.
  destruct (fv_value P r m due) as [a' [Ha' Ea]]; [lia |].
  destruct (fv_value P r n due) as [b' [Hb' Eb]]; [lia |].
  rewrite Ha in Ha'. injection Ha' as <-.
  rewrite Hb in Hb'. injection Hb' as <-.
  rewrite Ea, Eb.
  assert (Spec.ordinary_balance P r (Z.to_nat m)
          < Spec.ordinary_balance P r (Z.to_nat n)) as Hlt
    by (apply balance_increasing_between; [exact HP | exact Hr | lia]).
  destruct due; [| exact Hlt]. nra.
Qed.

Lemma months_years_cases (w : widgets) :
  ((w_durasi_unit w =? "Tahun")%string = true /\
   months w = (w_durasi w * 12)%Z /\ years w = w_durasi w) \/
  ((w_durasi_unit w =? "Tahun")%string = false /\
   months w = w_durasi w /\ years w = (w_durasi w / 12)%Z).
Proof.
  unfold years, months, years_months, int.
  destruct (w_durasi_unit w =? "Tahun")%string; cbn [fst snd]; auto.
Qed.

End PageFacts.

Import PageFacts.

(** X9.  At a return of 0% nothing is earned, in either timing mode: as
    long as the total of the deposits is an integer that a float holds
    exactly (at most 2^53), the future value is that total and the return
    is zero, in the summary and in every row of both tables. *)
Theorem zero_return_page (w : widgets) (pg : page) :
  Page.within_limits w -> (w_P w * months w <= 2 ^ 53)%Z ->
  w_r_percent w == 0 -> run w = Ok pg ->
  FV pg == inject_Z (principal pg) /\
  interest pg == 0 /\
  Forall (fun row => Bunga_Return row == 0)
         (Spec.yearly_entries (df_yearly pg)) /\
  Forall (fun row => m_Bunga_Return row == 0) (df_monthly pg).
Proof.
  intros _ _ Hp Hrun.
  assert (Page.rate w == 0) as Hr by (apply rate_zero; exact Hp).
  destruct (run_rows w pg Hrun) as [Hvals [Hrows Hmon]].
  destruct (run_inv w pg Hrun) as [fv [yearly [prog [Hfv [_ [_ Hpg]]]]]].
  assert (fv == inject_Z (w_P w * months w)) as Efv.
  { rewrite (fv_annuity_zero_rate _ _ _ _ _ Hr Hfv).
    now rewrite inject_Z_mult. }
  split; [| split; [| split]].
  - rewrite Hpg. cbn. exact Efv.
  - rewrite Hpg. cbn. rewrite Efv. ring.
  - eapply Forall2_Forall_r; [exact Hrows |].
    intros y row [_ [_ [Hv HB]]]. rewrite HB.
    rewrite (fv_annuity_zero_rate _ _ _ _ _ Hr Hv).
    rewrite !inject_Z_mult. ring.
  - rewrite Hmon. unfold df_progress_tbl. apply Forall_forall.
    intros row Hin. apply in_map_iff in Hin as [[b v] [<- Hin]].
    cbn [m_Bunga_Return].
    apply In_nth_error in Hin as [k Hk].
    apply nth_error_combine_inv in Hk as [Hb Hv].
    destruct (Forall2_nth_error_r _ _ _ k v Hvals Hv) as [b' [Hb' Hfvb]].
    unfold int in Hb. rewrite Hb in Hb'. injection Hb' as <-.
    rewrite (fv_annuity_zero_rate _ _ _ _ _ Hr Hfvb).
    rewrite !inject_Z_mult. ring.
Qed.

Lemma zero_return_page_witness :
  exists pg,
    run {| w_P := 400000; w_durasi_unit := "Tahun"; w_durasi := 2;
           w_period_choice := "Per Tahun"; w_r_percent := 0;
           w_timing := "Awal Bulan (Annuity Due)" |} = Ok pg /\
    interest pg == 0.
Proof.
  set (w := {| w_P := 400000; w_durasi_unit := "Tahun"; w_durasi := 2;
               w_period_choice := "Per Tahun"; w_r_percent := 0;
               w_timing := "Awal Bulan (Annuity Due)" |}).
  assert (w_r_percent w == 0) as Hp by reflexivity.
  assert (Page.within_limits w) as Hw.
  { unfold Page.within_limits. cbn.
    repeat split; try lia; unfold Qle; simpl; lia. }
  assert (w_P w * months w <= 2 ^ 53)%Z as Hb by (vm_compute; discriminate).
  destruct (run w) as [pg | e] eqn:Hrun.
  - exists pg. split; [reflexivity |].
    exact (proj1 (proj2 (zero_return_page w pg Hw Hb Hp Hrun))).
  - vm_compute in Hrun. discriminate Hrun.
Defined.

(** X10.  The future value of the summary is the last entry of the
    monthly progression. *)
Theorem summary_is_last_month (w : widgets) (pg : page) :
  (1 <= months w)%Z -> run w = Ok pg ->
  nth_error (df_progress pg) (Z.to_nat (months w - 1)) = Some (FV pg) /\
  List.length (df_progress pg) = Z.to_nat (months w).
Proof.
  intros Hm Hrun. destruct (run_rows w pg Hrun) as [Hvals _].
  destruct (run_inv w pg Hrun) as [fv [yearly [prog [Hfv [_ [_ Hpg]]]]]].
  assert (List.length (df_progress pg) = Z.to_nat (months w)) as Hlen.
  { rewrite <- (Forall2_length Hvals), range_length. f_equal. lia. }
  split; [| exact Hlen].
  destruct (Forall2_nth_error _ _ _ (Z.to_nat (months w - 1)) (months w) Hvals)
    as [v [Hv Hfv']].
  - rewrite range_nth_error by lia. f_equal. lia.
  - rewrite Hfv in Hfv'. injection Hfv' as <-. rewrite Hv, Hpg. reflexivity.
Qed.

Lemma summary_is_last_month_witness :
  exists pg,
    run Sample.thirty_months = Ok pg /\
    nth_error (df_progress pg) 29 = Some (FV pg).
Proof.
  assert (1 <= months Sample.thirty_months)%Z as Hm
    by (vm_compute; discriminate).
  destruct (run Sample.thirty_months) as [pg | e] eqn:Hrun.
  - exists pg. split; [reflexivity |].
    exact (proj1 (summary_is_last_month Sample.thirty_months pg Hm Hrun)).
  - vm_compute in Hrun. discriminate Hrun.
Defined.

(** X11.  The yearly table is the monthly progression read every twelfth
    month: the row at position [k] is for year [k + 1], counts
    [12 * (k + 1)] deposits, and its future value is the entry of the
    monthly progression for month [12 * (k + 1)]. *)
Theorem yearly_rows_match_monthly (w : widgets) (pg : page) (k : nat)
    (row : yearly_row) :
  run w = Ok pg ->
  nth_error (Spec.yearly_entries (df_yearly pg)) k = Some row ->
  Tahun row = Z.of_nat (k + 1) /\
  Setoran_Kumulatif row = (w_P w * (12 * Z.of_nat (k + 1)))%Z /\
  nth_error (df_progress pg) (12 * (k + 1) - 1) = Some (Future_Value row).
Proof.
  intros Hrun Hrow. destruct (run_rows w pg Hrun) as [Hvals [Hrows _]].
  destruct (Forall2_nth_error_r _ _ _ k row Hrows Hrow)
    as [y [Hy [HT [HS [Hv _]]]]].
  apply range_nth_error_inv in Hy as [-> Hk].
  assert (12 * (Z.of_nat k + 1) <= months w)%Z as Hle.
  { assert (Z.of_nat k + 1 <= months w / 12)%Z as Hq by lia.
    pose proof (Z.mul_div_le (months w) 12 ltac:(lia)). lia. }
  split; [rewrite HT; lia |]. split; [rewrite HS; f_equal; lia |].
  destruct (Forall2_nth_error _ _ _ (12 * (k + 1) - 1)
              ((1 + Z.of_nat k) * 12)%Z Hvals) as [v [Hv' Hfv]].
  - rewrite range_nth_error by lia. f_equal. lia.
  - rewrite Hv in Hfv. injection Hfv as <-. exact Hv'.
Qed.

Lemma yearly_rows_match_monthly_witness :
  exists pg row,
    run Sample.thirty_months = Ok pg /\
    nth_error (Spec.yearly_entries (df_yearly pg)) 1 = Some row /\
    nth_error (df_progress pg) 23 = Some (Future_Value row).
Proof.
  destruct (run Sample.thirty_months) as [pg | e] eqn:Hrun.
  - destruct (nth_error (Spec.yearly_entries (df_yearly pg)) 1)
      as [row |] eqn:Hrow.
    + exists pg, row. split; [reflexivity |]. split; [exact Hrow |].
      exact (proj2 (proj2 (yearly_rows_match_monthly
                             Sample.thirty_months pg 1 row Hrun Hrow))).
    + vm_compute in Hrun. injection Hrun as <-.
      vm_compute in Hrow. discriminate Hrow.
  - vm_compute in Hrun. discriminate Hrun.
Defined.

(** X12.  When the duration is entered in years, the last row of the
    yearly table is the summary: same future value, same total of
    deposits, same return. *)
Theorem yearly_table_ends_at_summary (w : widgets) (pg : page) :
  (w_durasi_unit w =? "Tahun")%string = true -> (1 <= w_durasi w)%Z ->
  run w = Ok pg ->
  exists row,
    nth_error (Spec.yearly_entries (df_yearly pg))
              (Z.to_nat (w_durasi w - 1)) = Some row /\
    List.length (Spec.yearly_entries (df_yearly pg)) = Z.to_nat (w_durasi w) /\
    Tahun row = w_durasi w /\
    Future_Value row = FV pg /\
    Setoran_Kumulatif row = principal pg /\
    Bunga_Return row = interest pg.
Proof.
  intros Hunit Hd Hrun.
  destruct (months_years_cases w) as [[_ [Hm Hy]] | [E _]];
    [| rewrite Hunit in E; discriminate E].
  destruct (run_rows w pg Hrun) as [_ [Hrows _]].
  destruct (run_inv w pg Hrun) as [fv [yearly [prog [Hfv [_ [_ Hpg]]]]]].
  rewrite <- years_of_months, Hy in Hrows.
  pose proof (Forall2_length Hrows) as Hlen. rewrite range_length in Hlen.
  destruct (Forall2_nth_error _ _ _ (Z.to_nat (w_durasi w - 1)) (w_durasi w)
              Hrows) as [row [Hrow [HT [HS [Hv HB]]]]].
  { rewrite range_nth_error by lia. f_equal. lia. }
  exists row. split; [exact Hrow |]. split; [rewrite <- Hlen; f_equal; lia |].
  split; [exact HT |].
  rewrite <- Hm, Hfv in Hv. injection Hv as Hv.
  rewrite HB, HS, <- Hm, <- Hv, Hpg. cbn. now repeat split.
Qed.

Lemma yearly_table_ends_at_summary_witness :
  exists pg row,
    run Sample.defaults = Ok pg /\
    nth_error (Spec.yearly_entries (df_yearly pg)) 7 = Some row /\
    Future_Value row = FV pg.
Proof.
  assert ((w_durasi_unit Sample.defaults =? "Tahun")%string = true) as Hu
    by reflexivity.
  assert (1 <= w_durasi Sample.defaults)%Z as Hd by (vm_compute; discriminate).
  destruct (run Sample.defaults) as [pg | e] eqn:Hrun.
  - destruct (yearly_table_ends_at_summary Sample.defaults pg Hu Hd Hrun)
      as [row [Hrow [_ [_ [Hv _]]]]].
    exists pg, row. split; [reflexivity |]. split; [exact Hrow | exact Hv].
  - vm_compute in Hrun. discriminate Hrun.
Defined.



(** X14.  In either unit the number of years is the number of months
    divided by twelve, rounded down; a duration entered in years is a whole
    number of years; and within the limits of the widgets the duration is
    1 to 600 months and at most 50 years. *)
Theorem duration_in_both_units (w : widgets) :
  years w = (months w / 12)%Z /\
  ((w_durasi_unit w =? "Tahun")%string = true ->
   months w = (12 * years w)%Z) /\
  (Page.within_limits w ->
   (1 <= months w <= 600)%Z /\ (0 <= years w <= 50)%Z).
Proof.
  split; [apply years_of_months |]. split.
  - intros Hu. destruct (months_years_cases w) as [[_ [Hm Hy]] | [E _]];
      [lia | rewrite Hu in E; discriminate E].
  - intros [_ [Hd _]].
    destruct (months_years_cases w) as [[E [Hm Hy]] | [E [Hm Hy]]];
      rewrite E in Hd; rewrite Hm, Hy.
    + lia.
    + split; [lia |]. split.
      * apply Z.div_pos; lia.
      * apply Z.div_le_upper_bound; lia.
Qed.

Lemma duration_in_both_units_witness :
  (1 <= months Sample.thirty_months <= 600)%Z /\
  (0 <= years Sample.thirty_months <= 50)%Z.
Proof.
  apply (proj2 (proj2 (duration_in_both_units Sample.thirty_months))).
  unfold Page.within_limits. cbn.
  repeat split; try lia; unfold Qle; simpl; lia.
Defined.

(** X16.  With a positive deposit and a return that is not negative, the
    monthly progression rises strictly from each month to the next. *)
Theorem monthly_progression_rises (w : widgets) (pg : page) (k : nat)
    (a b : Q) :
  (0 < w_P w)%Z -> 0 <= w_r_percent w -> run w = Ok pg ->
  nth_error (df_progress pg) k = Some a ->
  nth_error (df_progress pg) (S k) = Some b ->
  a < b.
Proof.
  intros HP Hp Hrun Ha Hb.
  assert (0 < inject_Z (w_P w)) as HP'
    by (change 0 with (inject_Z 0); now rewrite <- Zlt_Qlt).
  assert (0 <= Page.rate w) as Hr by (apply rate_nonneg; exact Hp).
  destruct (run_rows w pg Hrun) as [Hvals _].
  destruct (Forall2_nth_error_r _ _ _ k a Hvals Ha) as [m [Hm Hfa]].
  destruct (Forall2_nth_error_r _ _ _ (S k) b Hvals Hb) as [n [Hn Hfb]].
  apply range_nth_error_inv in Hm as [-> _].
  apply range_nth_error_inv in Hn as [-> _].
  eapply fv_lt_later; [exact HP' | | | exact Hfa | exact Hfb]; [lra | lia].
Qed.

Lemma monthly_progression_rises_witness :
  exists pg a b,
    run Sample.thirty_months = Ok pg /\
    nth_error (df_progress pg) 3 = Some a /\
    nth_error (df_progress pg) 4 = Some b /\ a < b.
Proof.
  assert (0 < w_P Sample.thirty_months)%Z as HP by reflexivity.
  assert (0 <= w_r_percent Sample.thirty_months) as Hp
    by (unfold Qle; simpl; lia).
  destruct (run Sample.thirty_months) as [pg | e] eqn:Hrun.
  - destruct (nth_error (df_progress pg) 3) as [a |] eqn:Ha.
    + destruct (nth_error (df_progress pg) 4) as [b |] eqn:Hb.
      * exists pg, a, b. split; [reflexivity |].
        split; [exact Ha |]. split; [exact Hb |].
        exact (monthly_progression_rises Sample.thirty_months pg 3 a b
                 HP Hp Hrun Ha Hb).
      * vm_compute in Hrun. injection Hrun as <-.
        vm_compute in Hb. discriminate Hb.
    + vm_compute in Hrun. injection Hrun as <-.
      vm_compute in Ha. discriminate Ha.
  - vm_compute in Hrun. discriminate Hrun.
Defined.

(** * Further properties of [fmt_rp] *)

Module FmtFacts.
Import Py App.

Local Open Scope Q_scope.

Lemma replace_chars (old new : ascii) (s : string) :
  list_ascii_of_string (replace old new s)
  = map (fun c => if Ascii.eqb c old then new else c) (list_ascii_of_string s).
Proof. induction s as [| c s IH]; cbn; [reflexivity | now rewrite IH]. Qed.

Lemma without_chars (c : ascii) (s : string) :
  list_ascii_of_string (Text.without c s)
  = filter (fun a => negb (Ascii.eqb a c)) (list_ascii_of_string s).
Proof.
  induction s as [| a s IH]; cbn; [reflexivity |].
  destruct (Ascii.eqb a c); cbn; now rewrite IH.
Qed.

Lemma chars_app (s t : string) :
  list_ascii_of_string (s ++ t)
  = list_ascii_of_string s ++ list_ascii_of_string t.
Proof. induction s as [| c s IH]; cbn; [reflexivity | now rewrite IH]. Qed.

Lemma string_of_chars_inj (s t : string) :
  list_ascii_of_string s = list_ascii_of_string t -> s = t.
Proof.
  intros H. rewrite <- (string_of_list_ascii_of_string s),
    <- (string_of_list_ascii_of_string t). now rewrite H.
Qed.

Lemma digit_not_separator (c : ascii) :
  Text.is_digit c = true ->
  Ascii.eqb c "," = false /\ Ascii.eqb c "." = false /\
  Ascii.eqb c "-" = false.
Proof.
  destruct c as [[] [] [] [] [] [] [] []]; cbn; intros H;
    try discriminate H; now repeat split.
Qed.

Lemma uint_chars_are_digits (d : Decimal.uint) :
  Forall (fun c => Text.is_digit c = true)
         (list_ascii_of_string (NilEmpty.string_of_uint d)).
Proof.
  induction d; cbn [NilEmpty.string_of_uint list_ascii_of_string];
    constructor; (reflexivity || assumption).
Qed.

Lemma digits_are_digits (n : Z) :
  Forall (fun c => Text.is_digit c = true) (digits n).
Proof.
  unfold digits, NilZero.string_of_uint.
  destruct (N.to_uint (Z.to_N n)) eqn:E;
    try (rewrite <- E; apply uint_chars_are_digits).
  repeat constructor.
Qed.

Lemma digits_nonempty (n : Z) : digits n <> [].
Proof.
  unfold digits, NilZero.string_of_uint.
  destruct (N.to_uint (Z.to_N n)); discriminate.
Qed.

(** The two shapes of [commas_rev]. *)
Lemma commas_rev_cases (ds : list ascii) :
  ((List.length ds <= 3)%nat /\ commas_rev ds = ds) \/
  exists a b c d rest,
    ds = a :: b :: c :: d :: rest /\
    commas_rev ds = a :: b :: c :: ","%char :: commas_rev (d :: rest).
Proof.
  destruct ds as [| a [| b [| c [| d rest]]]];
    try (left; split; [cbn; lia | reflexivity]).
  right. now exists a, b, c, d, rest.
Qed.

(** Induction over a list three elements at a time. *)
Lemma by_threes (Pr : list ascii -> Prop) :
  (forall ds, (List.length ds <= 3)%nat -> Pr ds) ->
  (forall a b c d rest, Pr (d :: rest) -> Pr (a :: b :: c :: d :: rest)) ->
  forall ds, Pr ds.
Proof.
  intros Hsmall Hstep ds.
  assert (forall n ds, (List.length ds <= n)%nat -> Pr ds) as H.
  { induction n as [| n IH]; intros l Hl.
    - apply Hsmall. lia.
    - destruct l as [| a [| b [| c [| d rest]]]];
        try (apply Hsmall; cbn; lia).
      apply Hstep. apply IH. cbn in Hl |- *. lia. }
  apply (H (List.length ds)). lia.
Qed.

Lemma commas_rev_ungroup (ds : list ascii) :
  Forall (fun c => Text.is_digit c = true) ds ->
  filter (fun a => negb (Ascii.eqb a "."))
         (map Text.dot_for_comma (commas_rev ds)) = ds.
Proof.
  assert (forall l, Forall (fun c => Text.is_digit c = true) l ->
            filter (fun a => negb (Ascii.eqb a ".")) (map Text.dot_for_comma l) = l)
    as Hplain.
  { induction 1 as [| c l Hc _ IH]; [reflexivity |].
    destruct (digit_not_separator c Hc) as [E1 [E2 _]].
    cbn [map]. unfold Text.dot_for_comma at 1. rewrite E1.
    cbn [filter]. rewrite E2. cbn [negb]. now rewrite IH. }
  induction ds as [ds Hlen | a b c d rest IH] using by_threes; intros Hd.
  - destruct (commas_rev_cases ds) as [[_ ->] | [a [b [c [d [rest [-> _]]]]]]];
      [now apply Hplain | cbn in Hlen; lia].
  - destruct (commas_rev_cases (a :: b :: c :: d :: rest))
      as [[Hlen _] | [a' [b' [c' [d' [rest' [E ->]]]]]]];
      [cbn in Hlen; lia |].
    injection E as <- <- <- <- <-.
    inversion Hd as [| ? ? Ha Hd1]; subst.
    inversion Hd1 as [| ? ? Hb Hd2]; subst.
    inversion Hd2 as [| ? ? Hc Hd3]; subst.
    destruct (digit_not_separator a Ha) as [A1 [A2 _]].
    destruct (digit_not_separator b Hb) as [B1 [B2 _]].
    destruct (digit_not_separator c Hc) as [C1 [C2 _]].
    cbn [map]. unfold Text.dot_for_comma at 1 2 3 4.
    rewrite A1, B1, C1. change (Ascii.eqb "," ",") with true.
    cbn [filter]. rewrite A2, B2, C2.
    change (Ascii.eqb "." ".") with true. cbn [negb].
    now rewrite (IH Hd3).
Qed.

Lemma commas_rev_positions (ds : list ascii) :
  Forall (fun c => Text.is_digit c = true) ds ->
  forall i c,
    nth_error (map Text.dot_for_comma (commas_rev ds)) i = Some c ->
    (i mod 4 = 3 -> c = "."%char)%nat /\
    (i mod 4 <> 3 -> Text.is_digit c = true)%nat.
Proof.
  assert (forall c, Text.is_digit c = true -> Text.dot_for_comma c = c) as Hd.
  { intros c Hc. destruct (digit_not_separator c Hc) as [E _].
    unfold Text.dot_for_comma. now rewrite E. }
  induction ds as [ds Hlen | a b c d rest IH] using by_threes; intros Hds i x Hx.
  - destruct (commas_rev_cases ds) as [[_ E] | [a [b [c [d [rest [-> _]]]]]]];
      [| cbn in Hlen; lia].
    rewrite E in Hx.
    assert (i < List.length ds)%nat as Hi.
    { rewrite <- (length_map Text.dot_for_comma).
      apply nth_error_Some. rewrite Hx. discriminate. }
    rewrite nth_error_map in Hx.
    destruct (nth_error ds i) as [y |] eqn:Hy; [| discriminate Hx].
    cbn in Hx. injection Hx as <-.
    assert (Text.is_digit y = true) as Hyd.
    { rewrite Forall_forall in Hds. apply Hds.
      eapply nth_error_In. exact Hy. }
    rewrite (Hd y Hyd).
    assert (i mod 4 = i)%nat as -> by (apply Nat.mod_small; lia).
    split; [lia | intros _; exact Hyd].
  - destruct (commas_rev_cases (a :: b :: c :: d :: rest))
      as [[Hlen _] | [a' [b' [c' [d' [rest' [E Ec]]]]]]];
      [cbn in Hlen; lia |].
    injection E as <- <- <- <- <-. rewrite Ec in Hx.
    inversion Hds as [| ? ? Ha Hd1]; subst.
    inversion Hd1 as [| ? ? Hb Hd2]; subst.
    inversion Hd2 as [| ? ? Hc Hd3]; subst.
    destruct i as [| [| [| [| j]]]]; cbn [map nth_error] in Hx.
    + injection Hx as <-. rewrite (Hd a Ha). split; [discriminate | auto].
    + injection Hx as <-. rewrite (Hd b Hb). split; [discriminate | auto].
    + injection Hx as <-. rewrite (Hd c Hc). split; [discriminate | auto].
    + injection Hx as <-. split; [reflexivity | intros H; now elim H].
    + replace (S (S (S (S j)))) with (j + 1 * 4)%nat by lia.
      rewrite Nat.Div0.mod_add. now apply IH.
Qed.

Lemma commas_rev_ends_with_digit (ds : list ascii) :
  ds <> [] -> Forall (fun c => Text.is_digit c = true) ds ->
  exists c tl, rev (commas_rev ds) = c :: tl /\ Text.is_digit c = true.
Proof.
  induction ds as [ds Hlen | a b c d rest IH] using by_threes; intros Hne Hds.
  - destruct (commas_rev_cases ds) as [[_ ->] | [a [b [c [d [rest [-> _]]]]]]];
      [| cbn in Hlen; lia].
    apply Forall_rev in Hds.
    destruct (rev ds) as [| c tl] eqn:E.
    + apply (f_equal (@rev ascii)) in E. rewrite rev_involutive in E.
      now elim Hne.
    + exists c, tl. split; [reflexivity |]. now inversion Hds.
  - destruct (commas_rev_cases (a :: b :: c :: d :: rest))
      as [[Hlen _] | [a' [b' [c' [d' [rest' [E ->]]]]]]];
      [cbn in Hlen; lia |].
    injection E as <- <- <- <- <-.
    destruct IH as [x [tl [E Hx]]]; [discriminate | |].
    { now inversion Hds as [| ? ? _ [| ? ? _ [| ? ? _ H]]]. }
    exists x, (tl ++ [","%char; c; b; a]). split; [| exact Hx].
    change (a :: b :: c :: ","%char :: commas_rev (d :: rest))
      with ([a; b; c; ","%char] ++ commas_rev (d :: rest)).
    rewrite rev_app_distr, E. reflexivity.
Qed.

(** The text written for a finite number. *)
Lemma fmt_rp_numeric (float_repr : pyfloat -> string) (x : value) (q : Q) :
  float x = Ok (Fin q) ->
  fmt_rp float_repr x
  = Ok ("Rp" ++ replace "," "." (format_comma_0f (round_half_even q)))%string.
Proof. unfold fmt_rp. intros ->. reflexivity. Qed.

Lemma amount_float (x : value) (q : Q) :
  Text.amount x q -> float x = Ok (Fin q).
Proof.
  intros [-> | [z [-> [Hz ->]]]]; [reflexivity |].
  unfold float.
  now replace (Z.abs z <=? 2 ^ 53)%Z with true
    by (symmetry; apply Z.leb_le; exact Hz).
Qed.

(** The grouped digits of a natural number, separators already dots. *)
Lemma grouped_body (n : Z) :
  exists body,
    replace "," "." (format_comma_0f n)
    = ((if (n <? 0)%Z then "-" else "") ++ body)%string /\
    Text.from_right body
    = map Text.dot_for_comma (commas_rev (rev (digits (Z.abs n)))).
Proof.
  exists (replace "," "."
            (string_of_list_ascii (rev (commas_rev (rev (digits (Z.abs n))))))).
  split.
  - unfold format_comma_0f. destruct (n <? 0)%Z; reflexivity.
  - unfold Text.from_right. rewrite replace_chars.
    rewrite list_ascii_of_string_of_list_ascii.
    fold Text.dot_for_comma. rewrite <- map_rev, rev_involutive.
    reflexivity.
Qed.

End FmtFacts.

Module RoundFacts.
Import Py App.

Local Open Scope Q_scope.

Lemma round_half_even_sound (q : Q) :
  Text.nearest_even q (round_half_even q).
Proof.
  unfold Text.nearest_even, round_half_even.
  pose proof (Qfloor_le q) as Hlo. pose proof (Qlt_floor q) as Hhi.
  rewrite inject_Z_plus in Hhi. change (inject_Z 1) with 1 in Hhi.
  destruct (q - inject_Z (Qfloor q) ?= 1 # 2) eqn:E.
  - apply Qeq_alt in E. destruct (Z.even (Qfloor q)) eqn:Hev.
    + right. split; [right; lra | exact Hev].
    + right. rewrite inject_Z_plus. change (inject_Z 1) with 1.
      split; [left; lra |].
      rewrite Z.even_add, Hev. reflexivity.
  - apply Qlt_alt in E. left. lra.
  - apply Qgt_alt in E. left. rewrite inject_Z_plus.
    change (inject_Z 1) with 1. lra.
Qed.

Lemma Z_lt_of_Q (a b : Z) : inject_Z a < inject_Z b + 1 -> (a <= b)%Z.
Proof.
  intros H. assert (inject_Z a < inject_Z (b + 1)) as H'
    by (rewrite inject_Z_plus; exact H).
  rewrite <- Zlt_Qlt in H'. lia.
Qed.

Lemma Z_succ_of_Q (a b : Z) : inject_Z a + 1 == inject_Z b -> (a + 1)%Z = b.
Proof.
  intros H. apply inject_Z_injective. now rewrite inject_Z_plus.
Qed.

Lemma even_not_consecutive (a b : Z) :
  Z.even a = true -> Z.even b = true -> (a + 1)%Z = b -> False.
Proof.
  intros Ha Hb <-. rewrite Z.even_add, Ha in Hb. discriminate Hb.
Qed.

Lemma nearest_even_unique (q : Q) (z z' : Z) :
  Text.nearest_even q z -> Text.nearest_even q z' -> z = z'.
Proof.
  intros [[H1 H2] | [Ht He]] [[H1' H2'] | [Ht' He']].
  - assert (z <= z')%Z by (apply Z_lt_of_Q; lra).
    assert (z' <= z)%Z by (apply Z_lt_of_Q; lra). lia.
  - destruct Ht' as [Ht' | Ht'].
    + assert (z + 1 <= z')%Z
        by (apply Z_lt_of_Q; rewrite inject_Z_plus; change (inject_Z 1) with 1; lra).
      assert (z' <= z)%Z by (apply Z_lt_of_Q; lra). lia.
    + assert (z' + 1 <= z)%Z
        by (apply Z_lt_of_Q; rewrite inject_Z_plus; change (inject_Z 1) with 1; lra).
      assert (z <= z')%Z by (apply Z_lt_of_Q; lra). lia.
  - destruct Ht as [Ht | Ht].
    + assert (z' + 1 <= z)%Z
        by (apply Z_lt_of_Q; rewrite inject_Z_plus; change (inject_Z 1) with 1; lra).
      assert (z <= z')%Z by (apply Z_lt_of_Q; lra). lia.
    + assert (z + 1 <= z')%Z
        by (apply Z_lt_of_Q; rewrite inject_Z_plus; change (inject_Z 1) with 1; lra).
      assert (z' <= z)%Z by (apply Z_lt_of_Q; lra). lia.
  - destruct Ht as [Ht | Ht], Ht' as [Ht' | Ht'].
    + apply inject_Z_injective. lra.
    + exfalso. apply (even_not_consecutive z' z He' He).
      apply Z_succ_of_Q. lra.
    + exfalso. apply (even_not_consecutive z z' He He').
      apply Z_succ_of_Q. lra.
    + apply inject_Z_injective. lra.
Qed.

Lemma round_half_even_is (q : Q) (z : Z) :
  Text.nearest_even q z -> round_half_even q = z.
Proof.
  intros H. apply (nearest_even_unique q); [apply round_half_even_sound | exact H].
Qed.

Lemma round_half_even_integer (z : Z) : round_half_even (inject_Z z) = z.
Proof. apply round_half_even_is. left. lra. Qed.

End RoundFacts.

Module ParseFacts.
Import Py App.

Lemma lstrip_keeps (xs ys : list ascii) (c : ascii) :
  is_space c = false -> lstrip (xs ++ c :: ys) = lstrip xs ++ c :: ys.
Proof.
  intros Hc. induction xs as [| x xs IH]; cbn.
  - now rewrite Hc.
  - destruct (is_space x); [exact IH | reflexivity].
Qed.

(** Stripping keeps a first character that is not white space. *)
Lemma strip_head (c : ascii) (cs : list ascii) :
  is_space c = false -> exists tl, strip (c :: cs) = c :: tl.
Proof.
  intros Hc. unfold strip. cbn [lstrip]. rewrite Hc. cbn [rev].
  rewrite (lstrip_keeps (rev cs) [] c Hc), rev_app_distr. cbn.
  now eexists.
Qed.

(** Text that starts with ["Rp"] is not a number for [float]. *)
Lemma parse_float_Rp (t : string) : parse_float ("Rp" ++ t) = None.
Proof.
  unfold parse_float. cbn [append list_ascii_of_string].
  destruct (strip_head "R" ("p"%char :: list_ascii_of_string t) eq_refl)
    as [tl ->].
  reflexivity.
Qed.

End ParseFacts.

Import FmtFacts RoundFacts ParseFacts.

(** X17.  Formatting is idempotent: whatever text [fmt_rp] returns, it
    returns that same text when given it back. *)
Theorem fmt_rp_idempotent (float_repr : pyfloat -> string) (x : value)
    (s : string) :
  fmt_rp float_repr x = Ok s -> fmt_rp float_repr (VStr s) = Ok s.
Proof.
  assert (forall t, fmt_rp float_repr (VStr ("Rp" ++ t)) = Ok ("Rp" ++ t)%string)
    as Hrp.
  { intros t. unfold fmt_rp, float. now rewrite parse_float_Rp. }
  intros H. destruct (float x) as [[q | | |] | e] eqn:Hf.
  - rewrite (fmt_rp_numeric _ _ _ Hf) in H. injection H as <-. apply Hrp.
  - unfold fmt_rp in H. rewrite Hf in H. discriminate H.
  - unfold fmt_rp in H. rewrite Hf in H. discriminate H.
  - unfold fmt_rp in H. rewrite Hf in H. discriminate H.
  - destruct x as [| b | z | f | t]; try discriminate Hf.
    + unfold fmt_rp in H. cbn in H. injection H as <-. reflexivity.
    + exfalso. unfold fmt_rp in H. rewrite Hf in H.
      unfold float in Hf.
      destruct (Z.abs z <=? 2 ^ 53)%Z; [discriminate Hf |].
      destruct (of_binary64 (nearest_binary64 (inject_Z z)));
        try discriminate Hf; injection Hf as <-; discriminate H.
    + assert (s = t) as ->; [| exact H].
      unfold fmt_rp in H. rewrite Hf in H.
      destruct e; try discriminate H; now injection H as <-.
Qed.

Lemma fmt_rp_idempotent_witness :
  fmt_rp (fun _ => "float"%string) (VStr "Rp1.234.567") = Ok "Rp1.234.567"%string.
Proof.
  apply (fmt_rp_idempotent _ (VInt 1234567)). reflexivity.
Defined.

(** X18.  A finite number is shown as the integer nearest to it, a tie
    going to the even integer: its text is the text of that integer. *)
Theorem fmt_rp_rounds_half_to_even (float_repr : pyfloat -> string)
    (q : Q) (z : Z) :
  Text.nearest_even q z ->
  round (Fin q) = Ok z /\
  fmt_rp float_repr (VFloat (Fin q))
  = fmt_rp float_repr (VFloat (Fin (inject_Z z))).
Proof.
  intros H. apply round_half_even_is in H.
  split; [cbn; now rewrite H |].
  rewrite (fmt_rp_numeric _ (VFloat (Fin q)) q eq_refl).
  rewrite (fmt_rp_numeric _ (VFloat (Fin (inject_Z z))) _ eq_refl).
  now rewrite H, round_half_even_integer.
Qed.

Lemma fmt_rp_rounds_half_to_even_witness :
  fmt_rp (fun _ => "float"%string) (VFloat (Fin (5 # 2)))
  = fmt_rp (fun _ => "float"%string) (VFloat (Fin (inject_Z 2))).
Proof.
  apply (fmt_rp_rounds_half_to_even _ (5 # 2) 2).
  right. split; [right; reflexivity | reflexivity].
Defined.

Module LayoutFacts.
Import Py App FmtFacts.

Lemma dot_for_comma_not_comma (l : list ascii) :
  filter (fun a => negb (Ascii.eqb a ",")) (map Text.dot_for_comma l)
  = map Text.dot_for_comma l.
Proof.
  induction l as [| c l IH]; [reflexivity |].
  cbn [map filter]. rewrite IH.
  replace (Ascii.eqb (Text.dot_for_comma c) ",") with false; [reflexivity |].
  unfold Text.dot_for_comma. destruct (Ascii.eqb c ",") eqn:E;
    [reflexivity | now rewrite E].
Qed.

(** The digits of [n] are the text [str] writes for [abs n]. *)
Lemma digits_str (float_repr : pyfloat -> string) (n : Z) :
  string_of_list_ascii (digits (Z.abs n)) = str float_repr (VInt (Z.abs n)).
Proof.
  unfold digits. rewrite string_of_list_ascii_of_string.
  destruct n; reflexivity.
Qed.

Lemma str_signed (float_repr : pyfloat -> string) (n : Z) :
  str float_repr (VInt n)
  = ((if (n <? 0)%Z then "-" else "") ++ str float_repr (VInt (Z.abs n)))%string.
Proof. destruct n; reflexivity. Qed.

(** Taking the dots out of the grouped digits gives the digits back. *)
Lemma body_ungrouped (body : string) (n : Z) :
  Text.from_right body
  = map Text.dot_for_comma (commas_rev (rev (digits (Z.abs n)))) ->
  list_ascii_of_string (Text.without "." body) = digits (Z.abs n) /\
  Text.without "," body = body.
Proof.
  unfold Text.from_right. intros H.
  apply (f_equal (@rev ascii)) in H. rewrite rev_involutive in H.
  split.
  - rewrite without_chars, H, filter_rev.
    rewrite commas_rev_ungroup
      by (apply Forall_rev; apply digits_are_digits).
    apply rev_involutive.
  - apply string_of_chars_inj.
    rewrite without_chars, H, filter_rev.
    now rewrite dot_for_comma_not_comma.
Qed.

Lemma without_app (c : ascii) (s t : string) :
  Text.without c (s ++ t) = (Text.without c s ++ Text.without c t)%string.
Proof.
  induction s as [| a s IH]; [reflexivity |].
  cbn. destruct (Ascii.eqb a c); cbn; now rewrite IH.
Qed.

Lemma str_int_injective (float_repr : pyfloat -> string) (a b : Z) :
  str float_repr (VInt a) = str float_repr (VInt b) -> a = b.
Proof.
  cbn [str]. intros H.
  assert (forall z, NilZero.int_of_string (NilZero.string_of_int (Z.to_int z))
                    = Some (Z.to_int z)) as Hisi.
  { intros z. apply NilZero.isi; destruct z; cbn; try discriminate;
      intros E; injection E as E; now apply DecimalPos.Unsigned.to_uint_nonnil in E. }
  pose proof (Hisi a) as Ha. rewrite H, Hisi in Ha. injection Ha as Ha.
  rewrite <- (DecimalZ.of_to a), <- (DecimalZ.of_to b). now rewrite Ha.
Qed.

End LayoutFacts.

Import LayoutFacts.

(** X19.  For a number, the text is ["Rp"], then the rounded integer as
    [str] writes it with dots added: taking the dots out again gives
    exactly that integer's text, minus sign included, and no comma is
    left in the text. *)
Theorem fmt_rp_layout (float_repr : pyfloat -> string) (x : value) (q : Q) :
  Text.amount x q ->
  exists t,
    fmt_rp float_repr x = Ok ("Rp" ++ t)%string /\
    Text.without "." t = str float_repr (VInt (round_half_even q)) /\
    Text.without "," t = t.
Proof.
  intros Hx. apply amount_float in Hx.
  rewrite (fmt_rp_numeric _ _ _ Hx).
  set (n := round_half_even q).
  destruct (grouped_body n) as [body [-> Hbody]].
  destruct (body_ungrouped body n Hbody) as [Hdigits Hcomma].
  eexists. split; [reflexivity |]. split.
  - rewrite without_app, (str_signed float_repr n), <- digits_str.
    rewrite <- Hdigits, string_of_list_ascii_of_string.
    now destruct (n <? 0)%Z.
  - rewrite without_app, Hcomma. now destruct (n <? 0)%Z.
Qed.

Lemma fmt_rp_layout_witness :
  exists t,
    fmt_rp (fun _ => "float"%string) (VInt (-1234567)) = Ok ("Rp" ++ t)%string /\
    Text.without "." t = "-1234567"%string.
Proof.
  assert (Text.amount (VInt (-1234567)) (inject_Z (-1234567))) as Hx.
  { right. exists (-1234567)%Z. split; [reflexivity |].
    split; [vm_compute; discriminate | reflexivity]. }
  destruct (fmt_rp_layout (fun _ => "float"%string) _ _ Hx)
    as [t [Ht [Hd _]]].
  exists t. split; [exact Ht | exact Hd].
Defined.

(** X20.  The digits of a number are grouped in threes from the right:
    after ["Rp"] and the minus sign of a negative amount, every fourth
    character counted from the end is a dot, every other character is a
    digit, and the first character is a digit. *)
Theorem fmt_rp_grouping (float_repr : pyfloat -> string) (x : value) (q : Q) :
  Text.amount x q ->
  exists body,
    fmt_rp float_repr x
    = Ok ("Rp" ++ (if (round_half_even q <? 0)%Z then "-" else "") ++ body)%string /\
    (forall i c,
       nth_error (Text.from_right body) i = Some c ->
       (i mod 4 = 3 -> c = "."%char)%nat /\
       (i mod 4 <> 3 -> Text.is_digit c = true)%nat) /\
    exists c tl, body = String c tl /\ Text.is_digit c = true.
Proof.
  intros Hx. apply amount_float in Hx.
  rewrite (fmt_rp_numeric _ _ _ Hx).
  set (n := round_half_even q).
  destruct (grouped_body n) as [body [-> Hbody]].
  assert (Forall (fun c => Text.is_digit c = true) (rev (digits (Z.abs n))))
    as Hds by (apply Forall_rev; apply digits_are_digits).
  exists body. split; [reflexivity |]. split.
  - intros i c Hc. rewrite Hbody in Hc.
    now apply (commas_rev_positions _ Hds).
  - destruct (commas_rev_ends_with_digit (rev (digits (Z.abs n))))
      as [c [tl [E Hc]]]; [| exact Hds |].
    { intros E. apply (f_equal (@rev ascii)) in E.
      rewrite rev_involutive in E. now apply digits_nonempty in E. }
    unfold Text.from_right in Hbody.
    apply (f_equal (@rev ascii)) in Hbody.
    rewrite rev_involutive, <- map_rev, E in Hbody. cbn [map] in Hbody.
    destruct (digit_not_separator c Hc) as [Ec _].
    unfold Text.dot_for_comma at 1 in Hbody. rewrite Ec in Hbody.
    exists c, (string_of_list_ascii (map Text.dot_for_comma tl)).
    split; [| exact Hc].
    rewrite <- (string_of_list_ascii_of_string body), Hbody. reflexivity.
Qed.

Lemma fmt_rp_grouping_witness :
  exists body,
    fmt_rp (fun _ => "float"%string) (VFloat (Fin (2469135 # 2)))
    = Ok ("Rp" ++ body)%string /\
    nth_error (Text.from_right body) 3 = Some "."%char.
Proof.
  assert (Text.amount (VFloat (Fin (2469135 # 2))) (2469135 # 2)) as Hx
    by (left; reflexivity).
  destruct (fmt_rp_grouping (fun _ => "float"%string) _ _ Hx)
    as [body [Hb [Hpos _]]].
  exists body. split; [exact Hb |].
  destruct (nth_error (Text.from_right body) 3) as [c |] eqn:Hc.
  - f_equal. apply (proj1 (Hpos 3%nat c Hc)). reflexivity.
  - vm_compute in Hb. injection Hb as <-. vm_compute in Hc. discriminate Hc.
Defined.

(** X21.  Two finite numbers get the same text only if they round to the
    same integer. *)
Theorem fmt_rp_distinguishes_integers (float_repr : pyfloat -> string)
    (q1 q2 : Q) :
  fmt_rp float_repr (VFloat (Fin q1)) = fmt_rp float_repr (VFloat (Fin q2)) ->
  round_half_even q1 = round_half_even q2.
Proof.
  intros H.
  rewrite (fmt_rp_numeric float_repr (VFloat (Fin q1)) q1 eq_refl) in H.
  rewrite (fmt_rp_numeric float_repr (VFloat (Fin q2)) q2 eq_refl) in H.
  injection H as H.
  assert (forall n,
            Text.without "." (replace "," "." (format_comma_0f n))
            = str float_repr (VInt n)) as Hun.
  { intros n. destruct (grouped_body n) as [body [-> Hbody]].
    destruct (body_ungrouped body n Hbody) as [Hdigits _].
    rewrite without_app, (str_signed float_repr n), <- digits_str.
    rewrite <- Hdigits, string_of_list_ascii_of_string.
    now destruct (n <? 0)%Z. }
  apply (str_int_injective float_repr).
  rewrite <- !Hun. now rewrite H.
Qed.

Lemma fmt_rp_distinguishes_integers_witness :
  round_half_even (5 # 2) = round_half_even (3 # 2).
Proof.
  apply (fmt_rp_distinguishes_integers (fun _ => "float"%string)).
  reflexivity.
Defined.
